(** * pollEvery: a cancellable repeating poller

    Shallow embedding of [pollEvery] (utils) and of the part of the
    JavaScript host it relies on: the timer queue ([setTimeout],
    [clearTimeout]), promises awaited by suspended [poll] calls, and the
    host actions that drive them (calling the returned closures, settling
    a promise, letting time pass).

    The two variables captured by the closures of one [pollEvery] call,
    [timer] and [stop], are fields of the poller state: every closure
    created from that call reads and writes the same two fields. *)

From Stdlib Require Import List ZArith Lia Bool Arith PeanoNat.
From Stdlib Require String.
Import ListNotations.

Set Implicit Arguments.

(** ** Values of the host language *)

(** How a synchronous call ends: it returns a value or throws. *)
Inductive completion (Err A : Type) : Type :=
| Normal (a : A)
| Throw (e : Err).
Arguments Normal {Err A} a.
Arguments Throw {Err A} e.

(** How a promise settles. *)
Inductive outcome (R Err : Type) : Type :=
| Fulfilled (r : R)
| Rejected (e : Err).
Arguments Fulfilled {R Err} r.
Arguments Rejected {R Err} e.

Section Poller.

(** [R]: results of the request; [T]: parameters of the factory;
    [Err]: thrown values and rejection reasons. *)
Context {R T Err : Type}.

(** What [fn(...params)] returns.  [request] is an opaque asynchronous
    operation: calling it hands out a fresh promise (see [poll]) that the
    host settles later, so only [onResult] carries behaviour here. *)
Record Handlers : Type := { onResult : R -> completion Err unit }.

(** [poll.bind(null, request, onResult)]: the pair of one [start] call,
    tagged with the rank of that call among the [start] calls. *)
Record Task : Type := { sid : nat; handlers : Handlers }.

(** A timer of the host queue, and a [poll] call suspended at its
    [await]. *)
Record Timer : Type := { t_id : nat; t_due : Z; t_task : Task }.
Record Await : Type := { a_pid : nat; a_task : Task }.

(** What an observer sees, in order. *)
Inductive Event : Type :=
| EvRequest (session pid : nat)      (* request() was called *)
| EvResult (session : nat) (r : R)   (* onResult(r) was called *)
| EvSetTimeout (session tid : nat)   (* setTimeout(poll.bind(..), delay) *)
| EvUnhandled (session : nat) (e : Err). (* the promise of poll rejected *)

Record State : Type := mkState {
  stop : bool;             (* let stop = false *)
  timer : option nat;      (* let timer; None is undefined *)
  now : Z;                 (* host clock *)
  timers : list Timer;     (* host timer queue, in creation order *)
  awaiting : list Await;   (* suspended poll calls *)
  next_timer : nat;
  next_promise : nat;
  next_session : nat;
  trace : list Event
}.

Definition init : State := mkState false None 0 [] [] 0 0 0 [].

Definition with_stop (b : bool) (s : State) : State :=
  mkState b (timer s) (now s) (timers s) (awaiting s)
          (next_timer s) (next_promise s) (next_session s) (trace s).

Definition with_timer (h : option nat) (s : State) : State :=
  mkState (stop s) h (now s) (timers s) (awaiting s)
          (next_timer s) (next_promise s) (next_session s) (trace s).

Definition with_now (t : Z) (s : State) : State :=
  mkState (stop s) (timer s) t (timers s) (awaiting s)
          (next_timer s) (next_promise s) (next_session s) (trace s).

Definition with_timers (l : list Timer) (s : State) : State :=
  mkState (stop s) (timer s) (now s) l (awaiting s)
          (next_timer s) (next_promise s) (next_session s) (trace s).

Definition with_awaiting (l : list Await) (s : State) : State :=
  mkState (stop s) (timer s) (now s) (timers s) l
          (next_timer s) (next_promise s) (next_session s) (trace s).

Definition emit (e : Event) (s : State) : State :=
  mkState (stop s) (timer s) (now s) (timers s) (awaiting s)
          (next_timer s) (next_promise s) (next_session s) (trace s ++ [e]).

(** ** Host primitives *)

(** [setTimeout(cb, ms)]: a negative [ms] counts as 0; the handle is
    fresh. *)
Definition setTimeout (k : Task) (ms : Z) (s : State) : nat * State :=
  let id := next_timer s in
  let t := {| t_id := id; t_due := (now s + Z.max 0 ms)%Z; t_task := k |} in
  (id, mkState (stop s) (timer s) (now s) (timers s ++ [t]) (awaiting s)
               (S id) (next_promise s) (next_session s)
               (trace s ++ [EvSetTimeout (sid k) id])).

(** [clearTimeout(h)]: nothing happens for [undefined] or for a handle
    that is no longer pending. *)
Definition clearTimeout (h : option nat) (s : State) : State :=
  match h with
  | None => s
  | Some id => with_timers (filter (fun t => negb (t_id t =? id)) (timers s)) s
  end.

(** ** The poller *)

Variable fn : list T -> completion Err Handlers.
Variable delay : Z.

(** [poll(request, onResult)] up to its [await]: the request is issued
    and the call suspends on the promise. *)
Definition poll (k : Task) (s : State) : State :=
  let pid := next_promise s in
  mkState (stop s) (timer s) (now s) (timers s)
          (awaiting s ++ [{| a_pid := pid; a_task := k |}])
          (next_timer s) (S pid) (next_session s)
          (trace s ++ [EvRequest (sid k) pid]).

(** [poll] after its [await].  A rejection, or a throw of [onResult],
    rejects the promise returned by [poll], which nobody holds. *)
Definition poll_resume (k : Task) (o : outcome R Err) (s : State) : State :=
  match o with
  | Rejected e => emit (EvUnhandled (sid k) e) s
  | Fulfilled r =>
      if stop s then s
      else
        let s1 := emit (EvResult (sid k) r) s in
        match onResult (handlers k) r with
        | Throw e => emit (EvUnhandled (sid k) e) s1
        | Normal _ =>
            let '(id, s2) := setTimeout k delay s1 in
            with_timer (Some id) s2
        end
  end.

(** The function returned by [pollEvery].  The closure it returns is
    named by the rank of the call. *)
Definition start (params : list T) (s : State) : completion Err nat * State :=
  match fn params with
  | Throw e => (Throw e, s)
  | Normal h =>
      let id := next_session s in
      let s1 :=
        mkState false (timer s) (now s) (timers s) (awaiting s)
                (next_timer s) (next_promise s) (S id) (trace s) in
      (Normal id, poll {| sid := id; handlers := h |} s1)
  end.

(** [pollEvery(fn, delay)] is that function; the variables it captures
    start out as in [init]. *)
Definition pollEvery : list T -> State -> completion Err nat * State := start.

(** The closure returned by [start]. *)
Definition stop_closure (s : State) : completion Err unit * State :=
  (Normal tt, clearTimeout (timer s) (with_stop true s)).

(** ** The host *)

Inductive Action : Type :=
| Start (params : list T)                (* call the poller *)
| Stop (session : nat)                   (* call the closure of a session *)
| Settle (pid : nat) (o : outcome R Err) (* a promise settles; poll resumes *)
| Advance (dt : Z).                      (* time passes *)

Definition settle (pid : nat) (o : outcome R Err) (s : State) : State :=
  match find (fun a => a_pid a =? pid) (awaiting s) with
  | None => s
  | Some a =>
      poll_resume (a_task a) o
        (with_awaiting (filter (fun a => negb (a_pid a =? pid)) (awaiting s)) s)
  end.

(** The pending timer that is due first; creation order breaks ties. *)
Fixpoint earliest (ts : list Timer) : option Timer :=
  match ts with
  | [] => None
  | t :: ts' =>
      match earliest ts' with
      | None => Some t
      | Some u => if (t_due t <=? t_due u)%Z then Some t else Some u
      end
  end.

Definition next_due (target : Z) (s : State) : option Timer :=
  match earliest (timers s) with
  | Some t => if (t_due t <=? target)%Z then Some t else None
  | None => None
  end.

(** A timer fires: it leaves the queue and its callback runs. *)
Definition fire (t : Timer) (s : State) : State :=
  poll (t_task t)
    (mkState (stop s) (timer s) (Z.max (now s) (t_due t))
             (filter (fun u => negb (t_id u =? t_id t)) (timers s))
             (awaiting s) (next_timer s) (next_promise s) (next_session s)
             (trace s)).

Fixpoint fire_due (fuel : nat) (target : Z) (s : State) : State :=
  match fuel with
  | O => s
  | S fuel' =>
      match next_due target s with
      | None => s
      | Some t => fire_due fuel' target (fire t s)
      end
  end.

(** Time passes: every timer due by then fires, in order. *)
Definition advance (dt : Z) (s : State) : State :=
  let target := (now s + Z.max 0 dt)%Z in
  with_now target (fire_due (length (timers s)) target s).

Definition step (a : Action) (s : State) : State :=
  match a with
  | Start params => snd (start params s)
  | Stop i => if i <? next_session s then snd (stop_closure s) else s
  | Settle pid o => settle pid o s
  | Advance dt => advance dt s
  end.

Fixpoint run (acts : list Action) (s : State) : State :=
  match acts with
  | [] => s
  | a :: acts' => run acts' (step a s)
  end.

(** ** Observations on states, traces and schedules *)

Definition ev_sid (e : Event) : nat :=
  match e with
  | EvRequest i _ | EvResult i _ | EvSetTimeout i _ | EvUnhandled i _ => i
  end.

Definition is_request (e : Event) : bool :=
  match e with EvRequest _ _ => true | _ => false end.

Definition is_result (e : Event) : bool :=
  match e with EvResult _ _ => true | _ => false end.

Definition is_timeout (e : Event) : bool :=
  match e with EvSetTimeout _ _ => true | _ => false end.

Definition is_unhandled (e : Event) : bool :=
  match e with EvUnhandled _ _ => true | _ => false end.

(** The results handed to the consumer of session [i], in order. *)
Fixpoint deliveries (i : nat) (evs : list Event) : list R :=
  match evs with
  | [] => []
  | EvResult j r :: evs' =>
      if j =? i then r :: deliveries i evs' else deliveries i evs'
  | _ :: evs' => deliveries i evs'
  end.

(** What a schedule adds to the trace. *)
Definition emitted (acts : list Action) (s : State) : list Event :=
  skipn (length (trace s)) (trace (run acts s)).

Definition is_start (a : Action) : bool :=
  match a with Start _ => true | _ => false end.

Definition no_start (acts : list Action) : bool :=
  forallb (fun a => negb (is_start a)) acts.

(** No request in flight and no timer pending. *)
Definition quiescent (s : State) : Prop :=
  awaiting s = [] /\ timers s = [].

(** Every action of the schedule satisfies [G] in the state it meets. *)
Fixpoint guarded (G : Action -> State -> Prop) (acts : list Action)
  (s : State) : Prop :=
  match acts with
  | [] => True
  | a :: acts' => G a s /\ guarded G acts' (step a s)
  end.

(** Sessions do not overlap: [start] is only called on a quiescent
    poller. *)
Definition sequential : list Action -> State -> Prop :=
  guarded (fun a s => is_start a = true -> quiescent s).

(** The requests in flight and the timers pending for session [i]. *)
Definition in_flight (i : nat) (s : State) : list Await :=
  filter (fun a => sid (a_task a) =? i) (awaiting s).

Definition scheduled (i : nat) (s : State) : list Timer :=
  filter (fun t => sid (t_task t) =? i) (timers s).

Definition threads (i : nat) (s : State) : nat :=
  length (in_flight i s) + length (scheduled i s).

(** A schedule of full iterations of one session whose first request is
    promise [pid]: the request takes [l], fulfils with [r], and the delay
    elapses. *)
Fixpoint iterations (pid : nat) (lrs : list (Z * R)) : list Action :=
  match lrs with
  | [] => []
  | (l, r) :: lrs' =>
      Advance l :: Settle pid (Fulfilled r) :: Advance delay
        :: iterations (S pid) lrs'
  end.

(** What these iterations show, for session [i] with next promise [pid]
    and next timer [tid]. *)
Fixpoint iteration_events (i pid tid : nat) (rs : list R) : list Event :=
  match rs with
  | [] => []
  | r :: rs' =>
      EvResult i r :: EvSetTimeout i tid :: EvRequest i pid
        :: iteration_events i (S pid) (S tid) rs'
  end.

(** [s'] extends the trace of [s] by events that all satisfy [P]. *)
Definition emits (P : Event -> Prop) (s s' : State) : Prop :=
  exists evs, trace s' = trace s ++ evs /\ Forall P evs.

(** A session never has more than one request or timer, sessions not yet
    started have none, and promise handles in use are not fresh. *)
Definition wf (s : State) : Prop :=
  (forall i, threads i s <= 1) /\
  (forall i, next_session s <= i -> threads i s = 0) /\
  Forall (fun a => a_pid a < next_promise s) (awaiting s).

(** At most one request or timer overall, and a pending timer is the one
    held in [timer]. *)
Definition solo (s : State) : Prop :=
  length (awaiting s) + length (timers s) <= 1 /\
  forall t, In t (timers s) -> timer s = Some (t_id t).

End Poller.

(** ** Concrete pollers used in examples *)

(** A consumer that accepts every result, and its factory. *)
Definition h_log : @Handlers nat nat :=
  {| onResult := fun _ => Normal tt |}.

Definition fn_log (_ : list nat) : completion nat (@Handlers nat nat) :=
  Normal h_log.

(** A consumer that throws on result 0, and its factory. *)
Definition h_picky : @Handlers nat nat :=
  {| onResult := fun r => if r =? 0 then Throw 13 else Normal tt |}.

Definition fn_picky (_ : list nat) : completion nat (@Handlers nat nat) :=
  Normal h_picky.


(** ** More observations on traces *)

Section Counting.

Context {R Err : Type}.

(** How many events of session [i] satisfy [p]. *)
Definition count_ev (p : @Event R Err -> bool) (i : nat)
  (evs : list (@Event R Err)) : nat :=
  length (filter (fun e => p e && (ev_sid e =? i)) evs).

(** The results handed to consumers, whatever the session, in order. *)
Fixpoint results_of (evs : list (@Event R Err)) : list R :=
  match evs with
  | [] => []
  | EvResult _ r :: evs' => r :: results_of evs'
  | _ :: evs' => results_of evs'
  end.

(** The time a list of waits takes; a negative wait counts as 0. *)
Fixpoint elapsed (dts : list Z) : Z :=
  match dts with
  | [] => 0
  | dt :: dts' => Z.max 0 dt + elapsed dts'
  end.

(** The order of a session's events, as counts: every result answers a
    request, every timer follows a result, every request but the first
    follows a timer. *)
Definition protocol (i : nat) (s : @State R Err) : Prop :=
  count_ev is_result i (trace s) + length (in_flight i s)
  <= count_ev is_request i (trace s) /\
  count_ev is_timeout i (trace s) <= count_ev is_result i (trace s) /\
  count_ev is_request i (trace s) + length (scheduled i s)
  <= count_ev is_timeout i (trace s) + 1.

End Counting.

Section Schedules.

Context {R T Err : Type}.

(** The action is a request that rejects. *)
Definition is_rejection (a : @Action R T Err) : bool :=
  match a with Settle _ (Rejected _) => true | _ => false end.

Definition no_rejection (acts : list (@Action R T Err)) : bool :=
  forallb (fun a => negb (is_rejection a)) acts.

(** The consumers of the tasks the poller holds return normally. *)
Definition calm (s : @State R Err) : Prop :=
  (forall a r, In a (awaiting s) ->
               onResult (handlers (a_task a)) r = Normal tt) /\
  (forall t r, In t (timers s) ->
               onResult (handlers (t_task t)) r = Normal tt).

End Schedules.

(** * A consumer that calls back into the poller

    [onResult] is code of the caller: while it runs it can call a stop
    closure or the poller itself.  In [poll] the flag is read once, before
    [onResult] is called, and the timer is set after [onResult] returns,
    whatever it did meanwhile.  A move of the host is an action as before,
    where the consumer (if it runs) calls nothing, or a fulfilment during
    which the consumer makes the given calls.  Calls made by the factory
    or by [request] need no move of their own: the factory runs before
    [start] touches the flag, and [request] is the last thing [poll] does
    before it suspends, so they come to actions of the host just before
    the start, and just after the start or the firing of the timer. *)

Section Reentrant.

Context {R T Err : Type}.
Variable fn : list T -> completion Err (@Handlers R Err).
Variable delay : Z.

Inductive Call : Type :=
| CallStop                        (* a closure returned by the poller *)
| CallStart (params : list T).    (* the poller *)

Definition apply_call (c : Call) (s : @State R Err) : @State R Err :=
  match c with
  | CallStop => snd (stop_closure (Err := Err) s)
  | CallStart params => snd (start fn params s)
  end.

Fixpoint apply_calls (cs : list Call) (s : @State R Err) : @State R Err :=
  match cs with
  | [] => s
  | c :: cs' => apply_calls cs' (apply_call c s)
  end.

(** [poll] after its [await], for a result [r] whose consumer makes the
    calls [cs] before it returns or throws. *)
Definition poll_resume_calling (cs : list Call) (k : Task) (r : R)
  (s : @State R Err) : @State R Err :=
  if stop s then s
  else
    let s1 := apply_calls cs (emit (EvResult (sid k) r) s) in
    match onResult (handlers k) r with
    | Throw e => emit (EvUnhandled (sid k) e) s1
    | Normal _ =>
        let '(id, s2) := setTimeout k delay s1 in
        with_timer (Some id) s2
    end.

Definition settle_calling (pid : nat) (r : R) (cs : list Call)
  (s : @State R Err) : @State R Err :=
  match find (fun a => a_pid a =? pid) (awaiting s) with
  | None => s
  | Some a =>
      poll_resume_calling cs (a_task a) r
        (with_awaiting (filter (fun a => negb (a_pid a =? pid)) (awaiting s)) s)
  end.

Inductive Move : Type :=
| Plain (a : @Action R T Err)
| Calling (pid : nat) (r : R) (cs : list Call).

Definition move (m : Move) (s : @State R Err) : @State R Err :=
  match m with
  | Plain a => step fn delay a s
  | Calling pid r cs => settle_calling pid r cs s
  end.

Fixpoint play (ms : list Move) (s : @State R Err) : @State R Err :=
  match ms with
  | [] => s
  | m :: ms' => play ms' (move m s)
  end.

(** What a list of moves adds to the trace. *)
Definition shown (ms : list Move) (s : @State R Err) : list (@Event R Err) :=
  skipn (length (trace s)) (trace (play ms s)).

(** A call of the consumer, as the action the host would make. *)
Definition call_action (c : Call) : @Action R T Err :=
  match c with
  | CallStop => Stop 0
  | CallStart params => Start params
  end.

Definition is_call_start (c : Call) : bool :=
  match c with CallStart _ => true | CallStop => false end.

(** The host calls the poller. *)
Definition host_start (m : Move) : bool :=
  match m with Plain a => is_start a | Calling _ _ _ => false end.

Definition no_host_start (ms : list Move) : bool :=
  forallb (fun m => negb (host_start m)) ms.

(** Every move satisfies [G] in the state it meets. *)
Fixpoint abiding (G : Move -> @State R Err -> Prop) (ms : list Move)
  (s : @State R Err) : Prop :=
  match ms with
  | [] => True
  | m :: ms' => G m s /\ abiding G ms' (move m s)
  end.

(** The poller is called by the host only, and only when it is
    quiescent: sessions do not overlap. *)
Definition in_turn (m : Move) (s : @State R Err) : Prop :=
  match m with
  | Plain a => is_start a = true -> quiescent s
  | Calling _ _ cs => forallb (fun c => negb (is_call_start c)) cs = true
  end.

Definition orderly : list Move -> @State R Err -> Prop := abiding in_turn.


End Reentrant.

(** * The block number watcher

    [useWatchBlockNumber] keeps two refs, [lastBlockNumber] and
    [blockNumberListeners], behind three callbacks.  Listeners are
    functions kept in a [Set], so they are compared by identity and
    visited in insertion order: a listener is modelled by its name, the
    set by the list of names in insertion order.  A listener is an opaque
    callee that returns without calling back into the watcher (the
    listeners of this repository are state setters); each call is
    recorded. *)

Definition Listener : Type := nat.

(** What listeners are told: [null] or a decimal string. *)
Definition BlockNumber : Type := option String.string.

Record Watch : Type := {
  lastBlockNumber : BlockNumber;         (* useRef(null) *)
  blockNumberListeners : list Listener;  (* useRef(new Set()) *)
  calls : list (Listener * BlockNumber)  (* the calls cb(v), in order *)
}.

(** The refs before any callback ran. *)
Definition watch0 : Watch :=
  {| lastBlockNumber := None; blockNumberListeners := []; calls := [] |}.

(** [a === b] on [null] and strings. *)
Definition same (a b : BlockNumber) : bool :=
  match a, b with
  | None, None => true
  | Some x, Some y => String.eqb x y
  | _, _ => false
  end.

(** [set.has(cb)]. *)
Definition has (cb : Listener) (l : list Listener) : bool :=
  existsb (Nat.eqb cb) l.

Definition addBlockNumberListener (cb : Listener) (w : Watch) : Watch :=
  if has cb (blockNumberListeners w) then w
  else
    {| lastBlockNumber := lastBlockNumber w;
       blockNumberListeners := blockNumberListeners w ++ [cb];
       calls := calls w ++ [(cb, lastBlockNumber w)] |}.

Definition removeBlockNumberListener (cb : Listener) (w : Watch) : Watch :=
  {| lastBlockNumber := lastBlockNumber w;
     blockNumberListeners :=
       filter (fun c => negb (c =? cb)) (blockNumberListeners w);
     calls := calls w |}.

Definition updateBlockNumber (v : BlockNumber) (w : Watch) : Watch :=
  if same (lastBlockNumber w) v then w
  else
    {| lastBlockNumber := v;
       blockNumberListeners := blockNumberListeners w;
       calls := calls w ++ map (fun cb => (cb, v)) (blockNumberListeners w) |}.

(** What components and effects do to the watcher. *)
Inductive WatchOp : Type :=
| Add (cb : Listener)
| Remove (cb : Listener)
| Update (v : BlockNumber).

Definition watch_step (op : WatchOp) (w : Watch) : Watch :=
  match op with
  | Add cb => addBlockNumberListener cb w
  | Remove cb => removeBlockNumberListener cb w
  | Update v => updateBlockNumber v w
  end.

Fixpoint watch_run (ops : list WatchOp) (w : Watch) : Watch :=
  match ops with
  | [] => w
  | op :: ops' => watch_run ops' (watch_step op w)
  end.

(** The calls received by listener [cb]. *)
Definition calls_to (cb : Listener) (cs : list (Listener * BlockNumber))
  : list BlockNumber :=
  map snd (filter (fun c => fst c =? cb) cs).

(** The value of the last [Update] of a list of operations. *)
Fixpoint last_update (ops : list WatchOp) (v0 : BlockNumber) : BlockNumber :=
  match ops with
  | [] => v0
  | Update v :: ops' => last_update ops' v
  | _ :: ops' => last_update ops' v0
  end.

Definition is_add (cb : Listener) (op : WatchOp) : bool :=
  match op with Add c => c =? cb | _ => false end.

(** * The polling effect of the watcher

    The effect of [useWatchBlockNumber] builds a poller of its own with
    [pollEvery], starts it once, and returns a cleanup.  What the consumer
    it hands to the poller does to the watcher is [onResult_block],
    applied for each result the poller delivers; how it ends is the
    [onResult] of [block_handlers].  [getBlockNumber] and [JSBI] are free
    identifiers of the file: the outcome of a request is the host's, as
    for any poller, and the conversion is a parameter that can throw. *)

Section Effect.

Context {Num Err Api : Type}.

(** [JSBI.BigInt(n).toString()] for a result that is not [null]: a string,
    or a throw (a value JSBI refuses, or no JSBI in scope). *)
Variable bigint_string : Num -> completion Err String.string.

Variable pollBlockNumberInterval : Z.

(** What [getBlockNumber(polkadot)] fulfils with: [null] or a value. *)
Definition BlockResult : Type := option Num.

(** The argument of [updateBlockNumber] in [onResult]:
    [n === null ? null : JSBI.BigInt(n).toString()]. *)
Definition block_of (r : BlockResult) : completion Err BlockNumber :=
  match r with
  | None => Normal None
  | Some n =>
      match bigint_string n with
      | Normal str => Normal (Some str)
      | Throw e => Throw e
      end
  end.

(** How [onResult] ends when it runs with [cancel] clear: it throws when
    the conversion does ([updateBlockNumber] and the listeners return).
    The poller never calls it with [cancel] set: the cleanup sets [cancel]
    and stops the poller at once, and the poller is not started again. *)
Definition block_handlers : @Handlers BlockResult Err :=
  {| onResult := fun r =>
       match block_of r with
       | Normal _ => Normal tt
       | Throw e => Throw e
       end |}.

(** The factory passed to [pollEvery]; it takes no parameter. *)
Definition block_factory (_ : list unit)
  : completion Err (@Handlers BlockResult Err) :=
  Normal block_handlers.

(** The body of [onResult], with the [cancel] variable of the effect:
    nothing when [cancel] is set, nothing either when the conversion
    throws (it is evaluated before [updateBlockNumber] is called). *)
Definition onResult_block (cancel : bool) (r : BlockResult) (w : Watch)
  : Watch :=
  if cancel then w
  else
    match block_of r with
    | Normal v => updateBlockNumber v w
    | Throw _ => w
    end.

(** One run of the effect: its [cancel] variable and its poller. *)
Record Effect : Type := {
  cancel : bool;
  poller : @State BlockResult Err
}.

(** What can happen to a mounted effect. *)
Inductive EffectAction : Type :=
| Resolve (pid : nat) (o : outcome BlockResult Err) (* a request settles *)
| Elapse (dt : Z)                                   (* time passes *)
| Cleanup.                                          (* React runs the cleanup *)

Definition to_action (a : EffectAction) : @Action BlockResult unit Err :=
  match a with
  | Resolve pid o => Settle pid o
  | Elapse dt => Advance dt
  | Cleanup => Stop 0
  end.

Definition effect_step (a : EffectAction) (ew : Effect * Watch)
  : Effect * Watch :=
  let p := poller (fst ew) in
  let c := cancel (fst ew) in
  ({| cancel := match a with Cleanup => true | _ => c end;
      poller := step block_factory pollBlockNumberInterval (to_action a) p |},
   fold_left (fun w r => onResult_block c r w)
     (results_of
        (emitted block_factory pollBlockNumberInterval [to_action a] p))
     (snd ew)).

Fixpoint effect_run (acts : list EffectAction) (ew : Effect * Watch)
  : Effect * Watch :=
  match acts with
  | [] => ew
  | a :: acts' => effect_run acts' (effect_step a ew)
  end.

(** The effect body: without an api the block number is reset and nothing
    is polled; with one, a new poller is started. *)
Definition mounted : Effect :=
  {| cancel := false;
     poller := step block_factory pollBlockNumberInterval (Start []) init |}.

Definition mount (polkadot : option Api) (w : Watch) : option Effect * Watch :=
  match polkadot with
  | None => (None, updateBlockNumber None w)
  | Some _ => (Some mounted, w)
  end.

(** The watcher with one effect, driven by the effect's host and by the
    components that subscribe. *)
Inductive SysAction : Type :=
| OfEffect (a : EffectAction)
| OfWatch (op : WatchOp).

Definition sys_step (x : SysAction) (ew : Effect * Watch) : Effect * Watch :=
  match x with
  | OfEffect a => effect_step a ew
  | OfWatch op => (fst ew, watch_step op (snd ew))
  end.

Fixpoint sys_run (xs : list SysAction) (ew : Effect * Watch)
  : Effect * Watch :=
  match xs with
  | [] => ew
  | x :: xs' => sys_run xs' (sys_step x ew)
  end.

(** The watcher operations, and the effect actions, of a schedule. *)
Fixpoint ops_of (xs : list SysAction) : list WatchOp :=
  match xs with
  | [] => []
  | OfWatch op :: xs' => op :: ops_of xs'
  | OfEffect _ :: xs' => ops_of xs'
  end.

Fixpoint actions_of (xs : list SysAction) : list EffectAction :=
  match xs with
  | [] => []
  | OfEffect a :: xs' => a :: actions_of xs'
  | OfWatch _ :: xs' => actions_of xs'
  end.

(** Full iterations of the poller of a mounted effect, as in
    [iterations]. *)
Fixpoint effect_iterations (pid : nat) (lrs : list (Z * BlockResult))
  : list EffectAction :=
  match lrs with
  | [] => []
  | (l, r) :: lrs' =>
      Elapse l :: Resolve pid (Fulfilled r) :: Elapse pollBlockNumberInterval
        :: effect_iterations (S pid) lrs'
  end.

Definition is_cleanup (a : EffectAction) : bool :=
  match a with Cleanup => true | _ => false end.

End Effect.

(** * Properties *)

Unset Implicit Arguments.

Section Facts.

Context {R T Err : Type}.
Variable fn : list T -> completion Err (@Handlers R Err).
Variable delay : Z.

Local Abbreviation St := (@State R Err).
Local Abbreviation Ev := (@Event R Err).
Local Abbreviation Act := (@Action R T Err).

(** ** Lists *)

Lemma filter_length_snoc (A : Type) (q : A -> bool) (l : list A) (x : A) :
  length (filter q (l ++ [x])) = length (filter q l) + (if q x then 1 else 0).
Proof.
  rewrite filter_app, length_app. simpl. destruct (q x); reflexivity.
Qed.

Lemma filter_filter_le (A : Type) (p q : A -> bool) (l : list A) :
  length (filter q (filter p l)) <= length (filter q l).
Proof.
  induction l as [|x l IH]; simpl; [lia|].
  destruct (p x); simpl; destruct (q x); simpl; lia.
Qed.

Lemma filter_filter_lt (A : Type) (p q : A -> bool) (l : list A) (x : A) :
  In x l -> p x = false -> q x = true ->
  S (length (filter q (filter p l))) <= length (filter q l).
Proof.
  induction l as [|y l IH]; simpl; [tauto|].
  intros [->|Hin] Hp Hq.
  - rewrite Hp, Hq. simpl. pose proof (filter_filter_le _ p q l). lia.
  - specialize (IH Hin Hp Hq).
    destruct (p y); simpl; destruct (q y); simpl; lia.
Qed.

Lemma filter_In_pos (A : Type) (q : A -> bool) (l : list A) (x : A) :
  In x l -> q x = true -> 1 <= length (filter q l).
Proof.
  intros Hin Hq.
  assert (H : In x (filter q l)) by (apply filter_In; auto).
  destruct (filter q l); simpl in *; [tauto | lia].
Qed.

Lemma skipn_app_exact (A : Type) (l l' : list A) :
  skipn (length l) (l ++ l') = l'.
Proof. induction l; simpl; auto. Qed.

(** ** Trace extension *)

Lemma emits_refl (P : Ev -> Prop) (s : St) : emits P s s.
Proof. exists []. rewrite app_nil_r. auto. Qed.

Lemma emits_trans (P : Ev -> Prop) (s1 s2 s3 : St) :
  emits P s1 s2 -> emits P s2 s3 -> emits P s1 s3.
Proof.
  intros (e1 & H1 & F1) (e2 & H2 & F2). exists (e1 ++ e2).
  rewrite H2, H1, app_assoc. split; [reflexivity | apply Forall_app; auto].
Qed.

Lemma emits_same (P : Ev -> Prop) (s s' : St) :
  trace s' = trace s -> emits P s s'.
Proof. intros H. exists []. rewrite app_nil_r. auto. Qed.

Lemma emits_one (P : Ev -> Prop) (s s' : St) (e : Ev) :
  trace s' = trace s ++ [e] -> P e -> emits P s s'.
Proof. intros H HP. exists [e]. auto. Qed.

Lemma emits_emitted (P : Ev -> Prop) (acts : list Act) (s : St) :
  emits P s (run fn delay acts s) -> Forall P (emitted fn delay acts s).
Proof.
  intros (evs & H & F). unfold emitted. rewrite H, skipn_app_exact. exact F.
Qed.

(** ** Timers that fire *)

Lemma earliest_In (ts : list (@Timer R Err)) (t : Timer) :
  earliest ts = Some t -> In t ts.
Proof.
  revert t. induction ts as [|u ts IH]; simpl; [discriminate|].
  intros t. destruct (earliest ts) as [v|].
  - destruct (t_due u <=? t_due v)%Z; intros [= <-]; auto.
  - intros [= <-]. auto.
Qed.

Lemma next_due_In (target : Z) (s : St) (t : Timer) :
  next_due target s = Some t -> In t (timers s) /\ (t_due t <= target)%Z.
Proof.
  unfold next_due. destruct (earliest (timers s)) as [u|] eqn:E; [|discriminate].
  destruct (t_due u <=? target)%Z eqn:L; [|discriminate].
  intros [= <-]. split; [apply earliest_In; exact E | lia].
Qed.

(** Induction over the timers fired by [fire_due]. *)
Lemma fire_due_rel (Q : St -> St -> Prop) (target : Z) :
  (forall s, Q s s) ->
  (forall s t s', In t (timers s) -> (t_due t <= target)%Z ->
                  Q (fire t s) s' -> Q s s') ->
  forall fuel s, Q s (fire_due fuel target s).
Proof.
  intros Hrefl Hstep. induction fuel as [|fuel IH]; intros s; simpl; [apply Hrefl|].
  destruct (next_due target s) as [t|] eqn:E; [|apply Hrefl].
  apply next_due_In in E. destruct E as [Hin Hdue].
  apply (Hstep s t); auto.
Qed.

(** ** Schedules *)

Lemma run_app (acts1 acts2 : list Act) (s : St) :
  run fn delay (acts1 ++ acts2) s = run fn delay acts2 (run fn delay acts1 s).
Proof. revert s. induction acts1 as [|a acts1 IH]; simpl; auto. Qed.

Lemma run_guarded (G : Act -> St -> Prop) (I : St -> Prop) (P : Ev -> Prop) :
  (forall a s, G a s -> I s ->
               I (step fn delay a s) /\ emits P s (step fn delay a s)) ->
  forall acts s, guarded fn delay G acts s -> I s ->
                 I (run fn delay acts s) /\ emits P s (run fn delay acts s).
Proof.
  intros Hstep. induction acts as [|a acts IH]; simpl; intros s HG HI.
  - split; [exact HI | apply emits_refl].
  - destruct HG as [Ha HG]. destruct (Hstep a s Ha HI) as [HI' He].
    destruct (IH _ HG HI') as [HI'' He']. split; [exact HI''|].
    eapply emits_trans; eauto.
Qed.

Lemma no_start_guarded (acts : list Act) (s : St) :
  no_start acts = true ->
  guarded fn delay (fun a _ => is_start a = false) acts s.
Proof.
  revert s. induction acts as [|a acts IH]; simpl; auto.
  intros s H. apply andb_true_iff in H. destruct H as [Ha H].
  split; [destruct (is_start a); simpl in *; congruence | auto].
Qed.

Lemma guarded_any (acts : list Act) (s : St) :
  guarded fn delay (fun _ _ => True) acts s.
Proof. revert s. induction acts; simpl; auto. Qed.

(** Time passing, seen through an invariant that ignores the clock. *)
Lemma advance_rel (I : St -> Prop) (P : Ev -> Prop) :
  (forall s z, I s -> I (with_now z s)) ->
  (forall s t, I s -> In t (timers s) -> I (fire t s) /\ emits P s (fire t s)) ->
  forall dt s, I s -> I (advance dt s) /\ emits P s (advance dt s).
Proof.
  intros Hnow Hfire dt s HI. unfold advance.
  generalize (now s + Z.max 0 dt)%Z. intros target.
  assert (H : I (fire_due (length (timers s)) target s) /\
              emits P s (fire_due (length (timers s)) target s)).
  { revert HI. generalize (length (timers s)). intros fuel.
    apply (fire_due_rel (fun s s' => I s -> I s' /\ emits P s s') target).
    - intros s0 HI. split; [exact HI | apply emits_refl].
    - intros s0 t s' Hin _ IH HI. destruct (Hfire s0 t HI Hin) as [HI' He].
      destruct (IH HI') as [HI'' He']. split; [exact HI''|].
      eapply emits_trans; eauto. }
  destruct H as [HI' He]. split; [apply Hnow; exact HI'|].
  destruct He as (evs & Ht & F). exists evs. split; [exact Ht | exact F].
Qed.

(** A promise settling, seen through an invariant. *)
Lemma settle_rel (I : St -> Prop) (P : Ev -> Prop) (pid : nat)
  (o : outcome R Err) (s : St) :
  (forall a, In a (awaiting s) -> a_pid a = pid ->
     let s1 := with_awaiting
                 (filter (fun b => negb (a_pid b =? pid)) (awaiting s)) s in
     I (poll_resume delay (a_task a) o s1) /\
     emits P s (poll_resume delay (a_task a) o s1)) ->
  I s -> I (settle delay pid o s) /\ emits P s (settle delay pid o s).
Proof.
  intros H HI. unfold settle.
  destruct (find (fun a => a_pid a =? pid) (awaiting s)) as [a|] eqn:E.
  - apply find_some in E. destruct E as [Hin Hp].
    apply Nat.eqb_eq in Hp. apply (H a Hin Hp).
  - split; [exact HI | apply emits_refl].
Qed.

(** ** One request or timer per session *)

Lemma threads_ext (i : nat) (s s' : St) :
  awaiting s' = awaiting s -> timers s' = timers s ->
  threads i s' = threads i s.
Proof. unfold threads, in_flight, scheduled. intros -> ->. reflexivity. Qed.

Lemma threads_poll (i : nat) (k : Task) (s : St) :
  threads i (poll k s) = threads i s + (if sid k =? i then 1 else 0).
Proof.
  unfold threads, in_flight, scheduled. simpl.
  rewrite filter_length_snoc. simpl. lia.
Qed.

Lemma threads_setTimeout (i : nat) (k : Task) (ms : Z) (s : St) :
  threads i (snd (setTimeout k ms s)) =
  threads i s + (if sid k =? i then 1 else 0).
Proof.
  unfold threads, in_flight, scheduled. simpl.
  rewrite filter_length_snoc. simpl. lia.
Qed.

Lemma threads_drop_timers (i : nat) (p : Timer -> bool) (s : St) :
  threads i (with_timers (filter p (timers s)) s) <= threads i s.
Proof.
  unfold threads, in_flight, scheduled. simpl.
  pose proof (filter_filter_le _ p (fun t => sid (t_task t) =? i) (timers s)). lia.
Qed.

Lemma threads_drop_timer (i : nat) (p : Timer -> bool) (t : Timer) (s : St) :
  In t (timers s) -> p t = false ->
  threads i (with_timers (filter p (timers s)) s)
  + (if sid (t_task t) =? i then 1 else 0) <= threads i s.
Proof.
  intros Hin Hp. destruct (sid (t_task t) =? i) eqn:E.
  - unfold threads, in_flight, scheduled. simpl.
    pose proof (filter_filter_lt _ p (fun t => sid (t_task t) =? i) _ _ Hin Hp E).
    lia.
  - pose proof (threads_drop_timers i p s). lia.
Qed.

Lemma threads_drop_await (i : nat) (p : Await -> bool) (a : Await) (s : St) :
  In a (awaiting s) -> p a = false ->
  threads i (with_awaiting (filter p (awaiting s)) s)
  + (if sid (a_task a) =? i then 1 else 0) <= threads i s.
Proof.
  intros Hin Hp. unfold threads, in_flight, scheduled. simpl.
  destruct (sid (a_task a) =? i) eqn:E.
  - pose proof (filter_filter_lt _ p (fun a => sid (a_task a) =? i) _ _ Hin Hp E).
    lia.
  - pose proof (filter_filter_le _ p (fun a => sid (a_task a) =? i) (awaiting s)).
    lia.
Qed.

Lemma threads_timer_pos (t : Timer) (s : St) :
  In t (timers s) -> 1 <= threads (sid (t_task t)) s.
Proof.
  intros Hin. unfold threads, in_flight, scheduled.
  pose proof (filter_In_pos _ (fun u => sid (t_task u) =? sid (t_task t))
                (timers s) t Hin (Nat.eqb_refl _)). lia.
Qed.

Lemma threads_await_pos (a : Await) (s : St) :
  In a (awaiting s) -> 1 <= threads (sid (a_task a)) s.
Proof.
  intros Hin. unfold threads, in_flight, scheduled.
  pose proof (filter_In_pos _ (fun b => sid (a_task b) =? sid (a_task a))
                (awaiting s) a Hin (Nat.eqb_refl _)). lia.
Qed.

Lemma wf_le (s s' : St) :
  (forall i, threads i s' <= threads i s) ->
  next_session s' = next_session s ->
  (forall a, In a (awaiting s') -> In a (awaiting s)) ->
  next_promise s <= next_promise s' ->
  wf s -> wf s'.
Proof.
  intros Hth Hns Hin Hnp (W1 & W2 & W3). repeat split.
  - intros i. specialize (Hth i). specialize (W1 i). lia.
  - intros i Hi. rewrite Hns in Hi. specialize (Hth i).
    specialize (W2 i Hi). lia.
  - rewrite Forall_forall in *. intros a Ha.
    specialize (W3 a (Hin a Ha)). lia.
Qed.

Lemma wf_sid_await (s : St) (a : Await) :
  wf s -> In a (awaiting s) -> sid (a_task a) < next_session s.
Proof.
  intros (_ & W2 & _) Hin. pose proof (threads_await_pos a s Hin).
  destruct (Nat.lt_ge_cases (sid (a_task a)) (next_session s)) as [|Hge]; auto.
  specialize (W2 _ Hge). lia.
Qed.

Lemma wf_sid_timer (s : St) (t : Timer) :
  wf s -> In t (timers s) -> sid (t_task t) < next_session s.
Proof.
  intros (_ & W2 & _) Hin. pose proof (threads_timer_pos t s Hin).
  destruct (Nat.lt_ge_cases (sid (t_task t)) (next_session s)) as [|Hge]; auto.
  specialize (W2 _ Hge). lia.
Qed.

Lemma wf_poll (k : Task) (s : St) :
  wf s -> threads (sid k) s = 0 -> sid k < next_session s -> wf (poll k s).
Proof.
  intros (W1 & W2 & W3) H0 Hlt. repeat split.
  - intros i. rewrite threads_poll. destruct (sid k =? i) eqn:E.
    + apply Nat.eqb_eq in E. subst i. lia.
    + specialize (W1 i). lia.
  - intros i Hi. simpl in Hi. rewrite threads_poll.
    destruct (sid k =? i) eqn:E.
    + apply Nat.eqb_eq in E. lia.
    + specialize (W2 i Hi). lia.
  - simpl. apply Forall_app. split.
    + eapply Forall_impl; [|exact W3]. simpl. intros; lia.
    + constructor; [simpl; lia | constructor].
Qed.

Lemma wf_setTimeout (k : Task) (ms : Z) (s : St) :
  wf s -> threads (sid k) s = 0 -> sid k < next_session s ->
  wf (with_timer (Some (fst (setTimeout k ms s))) (snd (setTimeout k ms s))).
Proof.
  intros (W1 & W2 & W3) H0 Hlt.
  assert (Hth : forall i,
             threads i (with_timer (Some (fst (setTimeout k ms s)))
                          (snd (setTimeout k ms s)))
             = threads i s + (if sid k =? i then 1 else 0)).
  { intros i. rewrite <- threads_setTimeout with (ms := ms).
    apply threads_ext; reflexivity. }
  repeat split.
  - intros i. rewrite Hth. destruct (sid k =? i) eqn:E.
    + apply Nat.eqb_eq in E. subst i. lia.
    + specialize (W1 i). lia.
  - intros i Hi. simpl in Hi. rewrite Hth. destruct (sid k =? i) eqn:E.
    + apply Nat.eqb_eq in E. lia.
    + specialize (W2 i Hi). lia.
  - exact W3.
Qed.

Lemma wf_emit (e : Ev) (s : St) : wf s -> wf (emit e s).
Proof.
  apply wf_le; simpl; auto.
Qed.

Lemma wf_poll_resume (k : Task) (o : outcome R Err) (s : St) :
  wf s -> threads (sid k) s = 0 -> sid k < next_session s ->
  wf (poll_resume delay k o s).
Proof.
  intros W H0 Hlt. unfold poll_resume. destruct o as [r|e].
  - destruct (stop s); [exact W|].
    destruct (onResult (handlers k) r) as [[]|e].
    + apply (wf_setTimeout k delay (emit (EvResult (sid k) r) s)).
      * apply wf_emit; exact W.
      * rewrite <- H0. apply threads_ext; reflexivity.
      * exact Hlt.
    + apply wf_emit. apply wf_emit. exact W.
  - apply wf_emit. exact W.
Qed.

Lemma wf_fire (t : Timer) (s : St) :
  wf s -> In t (timers s) -> wf (fire t s).
Proof.
  intros W Hin. unfold fire.
  set (p := fun u : Timer => negb (t_id u =? t_id t)).
  assert (Hp : p t = false) by (unfold p; rewrite Nat.eqb_refl; reflexivity).
  set (s1 := mkState _ _ _ _ _ _ _ _ _).
  assert (Hth : forall i, threads i s1 + (if sid (t_task t) =? i then 1 else 0)
                          <= threads i s).
  { intros i. rewrite <- (threads_drop_timer i p t s Hin Hp).
    rewrite (threads_ext i (with_timers (filter p (timers s)) s) s1); auto. }
  apply wf_poll.
  - apply (wf_le s s1); simpl; auto. intros i. specialize (Hth i). lia.
  - specialize (Hth (sid (t_task t))). rewrite Nat.eqb_refl in Hth.
    destruct W as (W1 & _). specialize (W1 (sid (t_task t))). lia.
  - apply (wf_sid_timer s t W Hin).
Qed.

Lemma wf_with_now (z : Z) (s : St) : wf s -> wf (with_now z s).
Proof.
  apply wf_le; simpl; auto.
Qed.

Lemma wf_settle (pid : nat) (o : outcome R Err) (s : St) :
  wf s -> wf (settle delay pid o s).
Proof.
  intros W.
  refine (proj1 (settle_rel wf (fun _ => True) pid o s _ W)).
  intros a Hin Hpid s1.
  set (p := fun b : Await => negb (a_pid b =? pid)) in *.
  assert (Hp : p a = false)
    by (unfold p; rewrite Hpid, Nat.eqb_refl; reflexivity).
  assert (Hth : forall i, threads i s1 + (if sid (a_task a) =? i then 1 else 0)
                          <= threads i s).
  { intros i. apply (threads_drop_await i p a s Hin Hp). }
  assert (W1 : wf s1).
  { apply (wf_le s s1); simpl; auto.
    - intros i. specialize (Hth i). lia.
    - intros b Hb. apply filter_In in Hb. tauto. }
  assert (H0 : threads (sid (a_task a)) s1 = 0).
  { specialize (Hth (sid (a_task a))). rewrite Nat.eqb_refl in Hth.
    destruct W as (Wa & _). specialize (Wa (sid (a_task a))). lia. }
  assert (Hlt : sid (a_task a) < next_session s1)
    by (simpl; apply (wf_sid_await s a W Hin)).
  split.
  - apply wf_poll_resume; assumption.
  - clear. unfold poll_resume, s1.
    destruct o as [r|e]; simpl.
    + destruct (stop s); [apply emits_same; reflexivity|].
      destruct (onResult (handlers (a_task a)) r) as [[]|e]; simpl.
      * exists [EvResult (sid (a_task a)) r;
                EvSetTimeout (sid (a_task a)) (next_timer s)].
        simpl. rewrite <- app_assoc. auto.
      * exists [EvResult (sid (a_task a)) r; EvUnhandled (sid (a_task a)) e].
        simpl. rewrite <- app_assoc. auto.
    + exists [EvUnhandled (sid (a_task a)) e]. auto.
Qed.

Lemma wf_start (params : list T) (s : St) :
  wf s -> wf (snd (start fn params s)).
Proof.
  intros W. unfold start. destruct (fn params) as [h|e]; [|exact W]. simpl.
  set (s1 := mkState _ _ _ _ _ _ _ _ _).
  assert (Hth : forall i, threads i s1 = threads i s)
    by (intros i; apply threads_ext; reflexivity).
  destruct W as (W1 & W2 & W3).
  apply wf_poll.
  - repeat split.
    + intros i. rewrite Hth. apply W1.
    + intros i Hi. simpl in Hi. rewrite Hth. apply W2. lia.
    + exact W3.
  - simpl. rewrite Hth. apply W2. lia.
  - simpl. lia.
Qed.

Lemma wf_clearTimeout (h : option nat) (s : St) :
  wf s -> wf (clearTimeout h s).
Proof.
  intros W. destruct h as [id|]; [|exact W]. simpl.
  apply (wf_le s); simpl; auto. intros i. apply threads_drop_timers.
Qed.

Lemma wf_with_stop (b : bool) (s : St) : wf s -> wf (with_stop b s).
Proof.
  apply wf_le; simpl; auto.
Qed.

Lemma wf_step (a : Act) (s : St) : wf s -> wf (step fn delay a s).
Proof.
  intros W. destruct a as [params|i|pid o|dt]; simpl.
  - apply wf_start; exact W.
  - destruct (i <? next_session s); [|exact W].
    apply wf_clearTimeout. apply wf_with_stop. exact W.
  - apply wf_settle; exact W.
  - refine (proj1 (advance_rel wf (fun _ => True) _ _ dt s W)).
    + intros; apply wf_with_now; assumption.
    + intros s0 t W0 Hin. split; [apply wf_fire; assumption|].
      exists [EvRequest (sid (t_task t)) (next_promise s0)]. simpl. auto.
Qed.

Lemma wf_init : wf (@init R Err).
Proof.
  repeat split; simpl; auto.
Qed.

Lemma wf_run (acts : list Act) (s : St) : wf s -> wf (run fn delay acts s).
Proof.
  revert s. induction acts as [|a acts IH]; simpl; auto.
  intros s W. apply IH. apply wf_step. exact W.
Qed.

(** ** A session without request or timer stays silent *)

Lemma dead_step (i : nat) (a : Act) (s : St) :
  i < next_session s /\ threads i s = 0 ->
  (i < next_session (step fn delay a s) /\ threads i (step fn delay a s) = 0) /\
  emits (fun e => ev_sid e <> i) s (step fn delay a s).
Proof.
  intros [Hlt H0]. destruct a as [params|j|pid o|dt]; simpl.
  - unfold start. destruct (fn params) as [h|e]; simpl.
    + repeat split.
      * lia.
      * rewrite threads_poll. simpl.
        destruct (next_session s =? i) eqn:E;
          [apply Nat.eqb_eq in E; lia|].
        cbv iota. rewrite (threads_ext i s) by reflexivity. lia.
      * apply emits_one with (e := EvRequest (next_session s) (next_promise s));
          [reflexivity | simpl; lia].
    + repeat split; auto. apply emits_refl.
  - destruct (j <? next_session s); [|repeat split; auto; apply emits_refl].
    repeat split.
    + destruct (timer s); simpl; exact Hlt.
    + destruct (timer s) as [id|]; simpl.
      * pose proof (threads_drop_timers i
                      (fun t => negb (t_id t =? id)) (with_stop true s)) as H.
        rewrite (threads_ext i s (with_stop true s)) in H by reflexivity.
        simpl in H. unfold with_timers. simpl. unfold with_timers in H. simpl in H.
        lia.
      * exact H0.
    + apply emits_same. destruct (timer s); reflexivity.
  - apply (settle_rel (fun s => i < next_session s /\ threads i s = 0));
      [|split; assumption].
    intros a Hin Hpid s1.
    set (p := fun b : Await => negb (a_pid b =? pid)) in *.
    assert (Hp : p a = false)
      by (unfold p; rewrite Hpid, Nat.eqb_refl; reflexivity).
    pose proof (threads_drop_await i p a s Hin Hp) as Hth. fold s1 in Hth.
    pose proof (threads_await_pos a s Hin) as Hpos.
    assert (Hne : sid (a_task a) <> i) by (intros Heq; rewrite Heq in Hpos; lia).
    assert (H1 : threads i s1 = 0) by lia.
    unfold poll_resume. destruct o as [r|e].
    + destruct (stop s1) eqn:Es; [repeat split; auto; apply emits_same; reflexivity|].
      destruct (onResult (handlers (a_task a)) r) as [[]|e].
      * repeat split; [exact Hlt | |].
        -- rewrite <- H1. unfold threads, in_flight, scheduled. simpl.
           rewrite filter_length_snoc. simpl.
           apply Nat.eqb_neq in Hne. rewrite Hne. cbv iota. lia.
        -- exists [EvResult (sid (a_task a)) r;
                   EvSetTimeout (sid (a_task a)) (next_timer s)].
           simpl. rewrite <- app_assoc. auto.
      * repeat split; [exact Hlt | exact H1 |].
        exists [EvResult (sid (a_task a)) r; EvUnhandled (sid (a_task a)) e].
        simpl. rewrite <- app_assoc. auto.
    + repeat split; [exact Hlt | exact H1 |].
      exists [EvUnhandled (sid (a_task a)) e]. auto.
  - apply (advance_rel (fun s => i < next_session s /\ threads i s = 0));
      [intros s0 z H; exact H | | split; assumption].
    clear. intros s t [Hlt H0] Hin.
    pose proof (threads_timer_pos t s Hin) as Hpos.
    assert (Hne : sid (t_task t) <> i) by (intros Heq; rewrite Heq in Hpos; lia).
    repeat split; [exact Hlt | |].
    + unfold fire. rewrite threads_poll.
      apply Nat.eqb_neq in Hne. rewrite Hne. cbv iota. rewrite Nat.add_0_r.
      pose proof (threads_drop_timers i
                    (fun u => negb (t_id u =? t_id t)) s) as H.
      unfold threads, in_flight, scheduled in *. simpl in *. lia.
    + apply emits_one with (e := EvRequest (sid (t_task t)) (next_promise s));
        [reflexivity | exact Hne].
Qed.

Lemma dead_run (i : nat) (acts : list Act) (s : St) :
  i < next_session s -> threads i s = 0 ->
  Forall (fun e => ev_sid e <> i) (emitted fn delay acts s).
Proof.
  intros Hlt H0. apply emits_emitted.
  refine (proj2 (run_guarded (fun _ _ => True)
                   (fun s => i < next_session s /\ threads i s = 0)
                   (fun e => ev_sid e <> i) _ acts s
                   (guarded_any acts s) (conj Hlt H0))).
  intros a s0 _ H. apply dead_step. exact H.
Qed.

(** ** After [stop], as long as [start] is not called *)

Lemma stopped_step (a : Act) (s : St) :
  is_start a = false -> stop s = true ->
  stop (step fn delay a s) = true /\
  emits (fun e => is_result e = false /\ is_timeout e = false)
        s (step fn delay a s).
Proof.
  intros Ha Hs. destruct a as [params|j|pid o|dt]; simpl in *; [discriminate| | |].
  - destruct (j <? next_session s); [|split; auto; apply emits_refl].
    split; [destruct (timer s); reflexivity|].
    apply emits_same. destruct (timer s); reflexivity.
  - apply (settle_rel (fun s => stop s = true)); [|exact Hs].
    intros a _ _ s1. unfold poll_resume, s1. simpl. rewrite Hs.
    destruct o as [r|e]; simpl.
    + split; [exact Hs | apply emits_same; reflexivity].
    + split; [exact Hs|].
      apply emits_one with (e := EvUnhandled (sid (a_task a)) e); simpl; auto.
  - apply (advance_rel (fun s => stop s = true)); [auto | | exact Hs].
    intros s0 t H _. split; [exact H|].
    apply emits_one with (e := EvRequest (sid (t_task t)) (next_promise s0));
      simpl; auto.
Qed.

Lemma quiet_step (a : Act) (s : St) :
  is_start a = false -> stop s = true /\ timers s = [] ->
  (stop (step fn delay a s) = true /\ timers (step fn delay a s) = []) /\
  emits (fun e => is_unhandled e = true) s (step fn delay a s).
Proof.
  intros Ha [Hs Ht]. destruct a as [params|j|pid o|dt]; simpl in *;
    [discriminate| | |].
  - destruct (j <? next_session s); [|repeat split; auto; apply emits_refl].
    repeat split.
    + destruct (timer s); reflexivity.
    + destruct (timer s); simpl; rewrite Ht; reflexivity.
    + apply emits_same. destruct (timer s); reflexivity.
  - apply (settle_rel (fun s => stop s = true /\ timers s = []));
      [|split; assumption].
    intros a _ _ s1. unfold poll_resume, s1. simpl. rewrite Hs.
    destruct o as [r|e]; simpl.
    + repeat split; auto. apply emits_same; reflexivity.
    + repeat split; auto.
      apply emits_one with (e := EvUnhandled (sid (a_task a)) e); simpl; auto.
  - apply (advance_rel (fun s => stop s = true /\ timers s = []));
      [auto | | split; assumption].
    intros s0 t [_ H0] Hin. rewrite H0 in Hin. destruct Hin.
Qed.

(** ** Sessions that do not overlap *)

Lemma filter_drop_nil (A : Type) (p : A -> bool) (l : list A) (x : A) :
  In x l -> p x = false -> length l <= 1 -> filter p l = [].
Proof.
  destruct l as [|y [|z l]]; simpl; intros Hin Hp Hlen; try lia; auto.
  destruct Hin as [->|[]]. rewrite Hp. reflexivity.
Qed.

Lemma solo_step (a : Act) (s : St) :
  (is_start a = true -> quiescent s) -> solo s ->
  solo (step fn delay a s) /\ emits (fun _ => True) s (step fn delay a s).
Proof.
  intros Ha [Hlen Htm]. destruct a as [params|j|pid o|dt]; simpl in *.
  - destruct (Ha eq_refl) as [Haw Hts]. unfold start.
    destruct (fn params) as [h|e]; simpl.
    + split.
      * split; simpl; rewrite ?Haw, ?Hts; simpl; [lia | tauto].
      * apply emits_one with (e := EvRequest (next_session s) (next_promise s));
          auto.
    + split; [split; assumption | apply emits_refl].
  - destruct (j <? next_session s); [|split; [split; assumption | apply emits_refl]].
    split.
    + destruct (timer s) as [id|] eqn:E; simpl.
      * split; simpl.
        -- pose proof (filter_length_le (fun t => negb (t_id t =? id)) (timers s)).
           lia.
        -- intros t Hin. apply filter_In in Hin. rewrite ?E.
           apply Htm. tauto.
      * split; simpl; [lia | rewrite ?E; exact Htm].
    + apply emits_same. destruct (timer s); reflexivity.
  - apply (settle_rel solo); [|split; assumption].
    intros a Hin Hpid s1.
    set (p := fun b : Await => negb (a_pid b =? pid)) in *.
    assert (Hp : p a = false)
      by (unfold p; rewrite Hpid, Nat.eqb_refl; reflexivity).
    assert (Haw : 1 <= length (awaiting s))
      by (destruct (awaiting s); simpl in *; [tauto | lia]).
    assert (Hf : filter p (awaiting s) = [])
      by (apply (filter_drop_nil _ p _ a Hin Hp); lia).
    assert (Hts : timers s = [])
      by (destruct (timers s); simpl in *; [reflexivity | lia]).
    subst s1 p. unfold poll_resume. simpl. destruct o as [r|e]; simpl.
    + destruct (stop s).
      * split; [|apply emits_same; reflexivity].
        split; simpl; rewrite ?Hf, ?Hts; simpl; [lia | tauto].
      * destruct (onResult (handlers (a_task a)) r) as [[]|e]; simpl.
        -- split.
           ++ split; simpl; rewrite ?Hf, ?Hts; simpl; [lia|].
              intros t [<-|[]]. reflexivity.
           ++ exists [EvResult (sid (a_task a)) r;
                      EvSetTimeout (sid (a_task a)) (next_timer s)].
              simpl. rewrite <- app_assoc. auto.
        -- split.
           ++ split; simpl; rewrite ?Hf, ?Hts; simpl; [lia | tauto].
           ++ exists [EvResult (sid (a_task a)) r;
                      EvUnhandled (sid (a_task a)) e].
              simpl. rewrite <- app_assoc. auto.
    + split.
      * split; simpl; rewrite ?Hf, ?Hts; simpl; [lia | tauto].
      * apply emits_one with (e := EvUnhandled (sid (a_task a)) e); auto.
  - apply (advance_rel solo); [intros s0 z H; exact H | | split; assumption].
    clear. intros s t [Hlen Htm] Hin.
    set (p := fun u : @Timer R Err => negb (t_id u =? t_id t)).
    assert (Hp : p t = false) by (unfold p; rewrite Nat.eqb_refl; reflexivity).
    assert (Hts : 1 <= length (timers s))
      by (destruct (timers s); simpl in *; [tauto | lia]).
    assert (Hf : filter p (timers s) = [])
      by (apply (filter_drop_nil _ p _ t Hin Hp); lia).
    assert (Haw : awaiting s = [])
      by (destruct (awaiting s); simpl in *; [reflexivity | lia]).
    subst p. split.
    + split; simpl; rewrite ?Hf, ?Haw; simpl; [lia | tauto].
    + apply emits_one with (e := EvRequest (sid (t_task t)) (next_promise s));
        auto.
Qed.

Lemma solo_run (acts : list Act) (s : St) :
  sequential fn delay acts s -> solo s -> solo (run fn delay acts s).
Proof.
  intros HG HS.
  exact (proj1 (run_guarded _ solo (fun _ => True) solo_step acts s HG HS)).
Qed.

Lemma solo_init : solo (@init R Err).
Proof. split; simpl; [lia | tauto]. Qed.

(** [stop] empties the queue of a poller whose sessions never overlapped. *)
Lemma solo_stop_clears (s : St) :
  solo s -> timers (snd (stop_closure (Err := Err) s)) = [].
Proof.
  intros [Hlen Htm]. simpl. destruct (timer s) as [id|] eqn:Et; simpl.
  - destruct (timers s) as [|t ts] eqn:E; [reflexivity|].
    pose proof (Htm t (or_introl eq_refl)) as H. injection H as ->.
    apply (filter_drop_nil _ _ _ t); [left; reflexivity | | simpl in *; lia].
    rewrite Nat.eqb_refl. reflexivity.
  - destruct (timers s) as [|t ts]; [reflexivity|].
    pose proof (Htm t (or_introl eq_refl)) as H. discriminate H.
Qed.

(** ** One session running *)

Lemma find_fresh (aw : list (@Await R Err)) (x : Await) (pid : nat) :
  Forall (fun a => a_pid a < pid) aw ->
  find (fun a => a_pid a =? pid) (aw ++ [x]) =
  find (fun a => a_pid a =? pid) [x].
Proof.
  induction 1 as [|a aw Ha _ IH]; [reflexivity|]. simpl.
  destruct (a_pid a =? pid) eqn:E; [apply Nat.eqb_eq in E; lia | exact IH].
Qed.

Lemma filter_fresh (aw : list (@Await R Err)) (x : Await) (pid : nat) :
  Forall (fun a => a_pid a < pid) aw ->
  filter (fun a => negb (a_pid a =? pid)) (aw ++ [x]) =
  aw ++ filter (fun a => negb (a_pid a =? pid)) [x].
Proof.
  induction 1 as [|a aw Ha _ IH]; [reflexivity|]. simpl.
  destruct (a_pid a =? pid) eqn:E; [apply Nat.eqb_eq in E; lia|].
  simpl. f_equal. exact IH.
Qed.

(** One full iteration: the request in flight fulfils, the result is
    delivered, the timer is set, fires after the delay, and the next
    request is issued. *)
Lemma iteration_step (tm : option nat) (nw : Z) (aw : list Await)
  (pid : nat) (k : Task) (nt ns : nat) (tr : list Ev) (l : Z) (r : R) :
  Forall (fun a => a_pid a < pid) aw ->
  onResult (handlers k) r = Normal tt ->
  run fn delay [Advance l; Settle pid (Fulfilled r); Advance delay]
    (mkState false tm nw [] (aw ++ [{| a_pid := pid; a_task := k |}])
             nt (S pid) ns tr)
  = mkState false (Some nt) (nw + Z.max 0 l + Z.max 0 delay) []
            (aw ++ [{| a_pid := S pid; a_task := k |}])
            (S nt) (S (S pid)) ns
            (tr ++ [EvResult (sid k) r; EvSetTimeout (sid k) nt;
                    EvRequest (sid k) (S pid)]).
Proof.
  intros Haw Hk. unfold run, step.
  unfold advance at 2. simpl. unfold settle. simpl.
  rewrite (find_fresh aw _ pid Haw), (filter_fresh aw _ pid Haw). simpl.
  rewrite Nat.eqb_refl. simpl. unfold poll_resume. simpl. rewrite Hk. simpl.
  unfold advance. simpl. unfold next_due. simpl.
  rewrite Z.leb_refl. unfold fire. simpl. rewrite Nat.eqb_refl. simpl.
  unfold with_now, poll. simpl.
  rewrite app_nil_r, <- !app_assoc. simpl. reflexivity.
Qed.

Lemma iterations_run (lrs : list (Z * R)) :
  forall (tm : option nat) (nw : Z) (aw : list Await) (pid : nat) (k : Task)
         (nt ns : nat) (tr : list Ev),
    Forall (fun a => a_pid a < pid) aw ->
    (forall r, In r (map snd lrs) -> onResult (handlers k) r = Normal tt) ->
    exists tm' nw',
      run fn delay (iterations delay pid lrs)
        (mkState false tm nw [] (aw ++ [{| a_pid := pid; a_task := k |}])
                 nt (S pid) ns tr)
      = mkState false tm' nw' []
                (aw ++ [{| a_pid := pid + length lrs; a_task := k |}])
                (nt + length lrs) (S (pid + length lrs)) ns
                (tr ++ iteration_events (sid k) (S pid) nt (map snd lrs)).
Proof.
  induction lrs as [|[l r] lrs IH]; intros tm nw aw pid k nt ns tr Haw Hk.
  - exists tm, nw. simpl. rewrite !Nat.add_0_r, app_nil_r. reflexivity.
  - change (iterations delay pid ((l, r) :: lrs))
      with ([@Advance R T Err l; Settle pid (Fulfilled r); Advance delay]
              ++ iterations delay (S pid) lrs).
    rewrite run_app, (iteration_step tm nw aw pid k nt ns tr l r Haw)
      by (apply Hk; left; reflexivity).
    destruct (IH (Some nt) (nw + Z.max 0 l + Z.max 0 delay)%Z aw (S pid) k
                (S nt) ns
                (tr ++ [EvResult (sid k) r; EvSetTimeout (sid k) nt;
                        EvRequest (sid k) (S pid)]))
      as (tm' & nw' & Hrun).
    + eapply Forall_impl; [|exact Haw]. simpl. intros; lia.
    + intros r' Hr'. apply Hk. right. exact Hr'.
    + exists tm', nw'. rewrite Hrun. simpl.
      rewrite <- !app_assoc, !Nat.add_succ_r. reflexivity.
Qed.

(** A session started on a poller with no timer pending. *)
Lemma session_run (s : St) (params : list T) (h : Handlers)
  (lrs : list (Z * R)) :
  fn params = Normal h ->
  timers s = [] ->
  Forall (fun a => a_pid a < next_promise s) (awaiting s) ->
  (forall r, In r (map snd lrs) -> onResult h r = Normal tt) ->
  exists tm' nw',
    run fn delay (Start params :: iterations delay (next_promise s) lrs) s
    = mkState false tm' nw' []
        (awaiting s ++
           [{| a_pid := next_promise s + length lrs;
               a_task := {| sid := next_session s; handlers := h |} |}])
        (next_timer s + length lrs) (S (next_promise s + length lrs))
        (S (next_session s))
        (trace s ++ EvRequest (next_session s) (next_promise s)
           :: iteration_events (next_session s) (S (next_promise s))
                (next_timer s) (map snd lrs)).
Proof.
  intros Hfn Hts Haw Hk. simpl. unfold start. rewrite Hfn. simpl.
  unfold poll. simpl. rewrite Hts.
  destruct (iterations_run lrs (timer s) (now s) (awaiting s) (next_promise s)
              {| sid := next_session s; handlers := h |}
              (next_timer s) (S (next_session s))
              (trace s ++ [EvRequest (next_session s) (next_promise s)])
              Haw Hk) as (tm' & nw' & Hrun).
  exists tm', nw'. rewrite Hrun. simpl. rewrite <- app_assoc. reflexivity.
Qed.

Lemma deliveries_app (i : nat) (evs1 evs2 : list Ev) :
  deliveries i (evs1 ++ evs2) = deliveries i evs1 ++ deliveries i evs2.
Proof.
  induction evs1 as [|e evs1 IH]; simpl; [reflexivity|].
  destruct e; auto. destruct (session =? i); simpl; rewrite IH; reflexivity.
Qed.

Lemma deliveries_iteration_events (i pid tid : nat) (rs : list R) :
  deliveries i (iteration_events (Err := Err) i pid tid rs) = rs.
Proof.
  revert pid tid. induction rs as [|r rs IH]; intros pid tid; simpl; auto.
  rewrite Nat.eqb_refl, IH. reflexivity.
Qed.

Lemma deliveries_no_result (i : nat) (evs : list Ev) :
  Forall (fun e => is_result e = false) evs -> deliveries i evs = [].
Proof.
  induction 1 as [|e evs He _ IH]; simpl; auto.
  destruct e; simpl in *; auto; discriminate.
Qed.


Lemma step_emits (a : Act) (s : St) :
  emits (fun _ => True) s (step fn delay a s).
Proof.
  destruct a as [params|j|pid o|dt]; simpl.
  - unfold start. destruct (fn params) as [h|e]; simpl; [|apply emits_refl].
    apply emits_one with (e := EvRequest (next_session s) (next_promise s)); auto.
  - destruct (j <? next_session s); [|apply emits_refl].
    apply emits_same. destruct (timer s); reflexivity.
  - refine (proj2 (settle_rel (fun _ => True) _ pid o s _ I)).
    intros a _ _ s1. split; [exact I|]. unfold poll_resume, s1.
    destruct o as [r|e]; simpl.
    + destruct (stop s); [apply emits_same; reflexivity|].
      destruct (onResult (handlers (a_task a)) r) as [[]|e]; simpl.
      * exists [EvResult (sid (a_task a)) r;
                EvSetTimeout (sid (a_task a)) (next_timer s)].
        simpl. rewrite <- app_assoc. auto.
      * exists [EvResult (sid (a_task a)) r; EvUnhandled (sid (a_task a)) e].
        simpl. rewrite <- app_assoc. auto.
    + apply emits_one with (e := EvUnhandled (sid (a_task a)) e); auto.
  - refine (proj2 (advance_rel (fun _ => True) _ _ _ dt s I)); [auto|].
    intros s0 t _ _. split; [exact I|].
    apply emits_one with (e := EvRequest (sid (t_task t)) (next_promise s0));
      auto.
Qed.

Lemma run_trace (acts : list Act) (s : St) :
  trace (run fn delay acts s) = trace s ++ emitted fn delay acts s.
Proof.
  assert (H : emits (fun _ => True) s (run fn delay acts s)).
  { refine (proj2 (run_guarded (fun _ _ => True) (fun _ => True)
                     (fun _ => True) _ acts s (guarded_any acts s) I)).
    intros a s0 _ _. split; [exact I | apply step_emits]. }
  destruct H as (evs & H & _). unfold emitted. rewrite H, skipn_app_exact.
  reflexivity.
Qed.

Lemma emitted_app (acts1 acts2 : list Act) (s : St) :
  emitted fn delay (acts1 ++ acts2) s =
  emitted fn delay acts1 s ++ emitted fn delay acts2 (run fn delay acts1 s).
Proof.
  apply (app_inv_head (trace s)).
  rewrite <- run_trace, run_app, run_trace, run_trace, app_assoc. reflexivity.
Qed.

(** ** Settling a known promise, and stopping *)

Lemma settle_found (pid : nat) (o : outcome R Err) (s : St) (a : Await) :
  find (fun b => a_pid b =? pid) (awaiting s) = Some a ->
  settle delay pid o s =
  poll_resume delay (a_task a) o
    (with_awaiting (filter (fun b => negb (a_pid b =? pid)) (awaiting s)) s).
Proof. intros H. unfold settle. rewrite H. reflexivity. Qed.

Lemma find_filter_none (A : Type) (p : A -> bool) (l : list A) :
  find p (filter (fun x => negb (p x)) l) = None.
Proof.
  induction l as [|x l IH]; simpl; auto.
  destruct (p x) eqn:E; simpl; [exact IH | rewrite E; exact IH].
Qed.

Lemma find_app_found (A : Type) (p : A -> bool) (l l' : list A) (x : A) :
  find p l = Some x -> find p (l ++ l') = Some x.
Proof.
  induction l as [|y l IH]; simpl; [discriminate|].
  destruct (p y); auto.
Qed.

Lemma filter_idem (A : Type) (p : A -> bool) (l : list A) :
  filter p (filter p l) = filter p l.
Proof.
  induction l as [|x l IH]; simpl; auto.
  destruct (p x) eqn:E; simpl; [rewrite E, IH | rewrite IH]; reflexivity.
Qed.

Lemma emitted_cons (a : Act) (acts : list Act) (s : St) :
  emitted fn delay (a :: acts) s =
  emitted fn delay [a] s ++ emitted fn delay acts (step fn delay a s).
Proof. apply (emitted_app [a] acts s). Qed.

Lemma emitted_one (a : Act) (s : St) (evs : list Ev) :
  trace (step fn delay a s) = trace s ++ evs -> emitted fn delay [a] s = evs.
Proof. intros H. unfold emitted. simpl. rewrite H. apply skipn_app_exact. Qed.

Lemma stop_step (i : nat) (s : St) :
  i < next_session s ->
  step fn delay (Stop i) s = clearTimeout (timer s) (with_stop true s).
Proof. intros H. simpl. apply Nat.ltb_lt in H. rewrite H. reflexivity. Qed.

Lemma clearTimeout_fields (h : option nat) (s : St) :
  stop (clearTimeout h s) = stop s /\
  trace (clearTimeout h s) = trace s /\
  awaiting (clearTimeout h s) = awaiting s /\
  next_timer (clearTimeout h s) = next_timer s /\
  next_promise (clearTimeout h s) = next_promise s /\
  next_session (clearTimeout h s) = next_session s /\
  timer (clearTimeout h s) = timer s.
Proof. destruct h; simpl; repeat split. Qed.

Lemma emitted_stop (i : nat) (s : St) : emitted fn delay [Stop i] s = [].
Proof.
  apply emitted_one. rewrite app_nil_r. simpl.
  destruct (i <? next_session s); [|reflexivity].
  destruct (timer s); reflexivity.
Qed.

Lemma stopped_run (tail : list Act) (s : St) :
  stop s = true -> no_start tail = true ->
  stop (run fn delay tail s) = true /\
  Forall (fun e => is_result e = false /\ is_timeout e = false)
         (emitted fn delay tail s).
Proof.
  intros Hs Hn.
  destruct (run_guarded (fun a _ => is_start a = false)
              (fun s => stop s = true)
              (fun e => is_result e = false /\ is_timeout e = false)
              (fun a s0 Ha H => stopped_step a s0 Ha H)
              tail s (no_start_guarded tail s Hn) Hs) as [H1 H2].
  split; [exact H1 | apply emits_emitted; exact H2].
Qed.

Lemma quiet_run (tail : list Act) (s : St) :
  stop s = true -> timers s = [] -> no_start tail = true ->
  Forall (fun e => is_unhandled e = true) (emitted fn delay tail s).
Proof.
  intros Hs Ht Hn. apply emits_emitted.
  exact (proj2 (run_guarded (fun a _ => is_start a = false)
                  (fun s => stop s = true /\ timers s = [])
                  (fun e => is_unhandled e = true)
                  (fun a s0 Ha H => quiet_step a s0 Ha H)
                  tail s (no_start_guarded tail s Hn) (conj Hs Ht))).
Qed.

Lemma stop_cancels_timer_core (acts : list Act) (i : nat) :
  sequential fn delay acts init ->
  i < next_session (run fn delay acts init) ->
  timers (run fn delay (acts ++ [Stop i]) init) = [] /\
  stop (run fn delay (acts ++ [Stop i]) init) = true.
Proof.
  intros Hseq Hi.
  pose proof (solo_run acts init Hseq solo_init) as Hsolo.
  assert (E : run fn delay (acts ++ [Stop i]) init
              = snd (stop_closure (Err := Err) (run fn delay acts init))).
  { rewrite run_app. cbn [run]. rewrite (stop_step i _ Hi). reflexivity. }
  rewrite E. split; [apply solo_stop_clears; exact Hsolo|].
  simpl.
  destruct (clearTimeout_fields (timer (run fn delay acts init))
              (with_stop true (run fn delay acts init))) as (-> & _).
  reflexivity.
Qed.

(** ** Session ranks in the trace *)

Lemma step_sids (a : Act) (s : St) :
  wf s ->
  next_session s <= next_session (step fn delay a s) /\
  emits (fun e => ev_sid e < next_session (step fn delay a s))
        s (step fn delay a s).
Proof.
  intros W. destruct a as [params|j|pid o|dt].
  - simpl. unfold start. destruct (fn params) as [h|e]; simpl.
    + split; [lia|].
      apply emits_one with (e := EvRequest (next_session s) (next_promise s));
        [reflexivity | simpl; lia].
    + split; [lia | apply emits_refl].
  - simpl. destruct (j <? next_session s); [|split; [lia | apply emits_refl]].
    destruct (clearTimeout_fields (timer s) (with_stop true s))
      as (_ & Htr & _ & _ & _ & Hns & _).
    rewrite Hns. split; [simpl; lia | apply emits_same; exact Htr].
  - assert (H : next_session (settle delay pid o s) = next_session s /\
                emits (fun e => ev_sid e < next_session s)
                      s (settle delay pid o s)).
    { apply (settle_rel (fun s0 => next_session s0 = next_session s));
        [|reflexivity].
      intros a Hin Hpid s1.
      pose proof (wf_sid_await s a W Hin) as Hlt.
      unfold poll_resume, s1. destruct o as [r|e]; simpl.
      - destruct (stop s); [split; [reflexivity | apply emits_same; reflexivity]|].
        destruct (onResult (handlers (a_task a)) r) as [[]|e]; simpl.
        + split; [reflexivity|].
          exists [EvResult (sid (a_task a)) r;
                  EvSetTimeout (sid (a_task a)) (next_timer s)].
          simpl. rewrite <- app_assoc. auto.
        + split; [reflexivity|].
          exists [EvResult (sid (a_task a)) r; EvUnhandled (sid (a_task a)) e].
          simpl. rewrite <- app_assoc. auto.
      - split; [reflexivity|].
        apply emits_one with (e := EvUnhandled (sid (a_task a)) e); auto. }
    destruct H as [Hns He]. cbn [step]. rewrite Hns. split; [lia | exact He].
  - assert (H : (wf (advance dt s) /\
                 next_session (advance dt s) = next_session s) /\
                emits (fun e => ev_sid e < next_session s) s (advance dt s)).
    { apply (advance_rel (fun s0 => wf s0 /\ next_session s0 = next_session s));
        [| |split; [exact W | reflexivity]].
      - intros s0 z [W0 H0]. split; [apply wf_with_now; exact W0 | exact H0].
      - intros s0 t [W0 H0] Hin. split; [split|].
        + apply wf_fire; assumption.
        + exact H0.
        + apply emits_one
            with (e := EvRequest (sid (t_task t)) (next_promise s0));
            [reflexivity|].
          simpl. rewrite <- H0. apply (wf_sid_timer s0 t W0 Hin). }
    destruct H as [[_ Hns] He]. cbn [step]. rewrite Hns. split; [lia | exact He].
Qed.

Lemma run_sids (acts : list Act) (s : St) :
  wf s ->
  Forall (fun e => ev_sid e < next_session s) (trace s) ->
  Forall (fun e => ev_sid e < next_session (run fn delay acts s))
         (trace (run fn delay acts s)).
Proof.
  revert s. induction acts as [|a acts IH]; intros s W F; [exact F|].
  cbn [run]. apply IH; [apply wf_step; exact W|].
  destruct (step_sids a s W) as (Hle & evs & Ht & Fe).
  rewrite Ht. apply Forall_app. split; [|exact Fe].
  eapply Forall_impl; [|exact F]. simpl. intros; lia.
Qed.

(** A session whose only request has settled has nothing left. *)
Lemma settled_session_idle (s s' : St) (pid : nat) (a : Await) :
  wf s ->
  find (fun b => a_pid b =? pid) (awaiting s) = Some a ->
  awaiting s' = filter (fun b => negb (a_pid b =? pid)) (awaiting s) ->
  timers s' = timers s ->
  next_session s' = next_session s ->
  sid (a_task a) < next_session s' /\ threads (sid (a_task a)) s' = 0.
Proof.
  intros W Hf Ha Ht Hn.
  destruct (find_some _ _ Hf) as [Hin Hp]. apply Nat.eqb_eq in Hp.
  split; [rewrite Hn; apply (wf_sid_await s a W Hin)|].
  assert (Hq : negb (a_pid a =? pid) = false)
    by (rewrite Hp, Nat.eqb_refl; reflexivity).
  pose proof (threads_drop_await (sid (a_task a))
                (fun b => negb (a_pid b =? pid)) a s Hin Hq) as Hth.
  rewrite Nat.eqb_refl in Hth.
  destruct W as (W1 & _). specialize (W1 (sid (a_task a))).
  unfold threads, in_flight, scheduled in *. rewrite Ha, Ht.
  simpl in Hth. lia.
Qed.

(** ** A fulfilled request, with the flag clear and with the flag set *)

Lemma settle_fulfilled_live (s : St) (pid : nat) (a : Await) (r : R) :
  find (fun b => a_pid b =? pid) (awaiting s) = Some a ->
  stop s = false ->
  trace (settle delay pid (Fulfilled r) s)
  = trace s ++ EvResult (sid (a_task a)) r
      :: match onResult (handlers (a_task a)) r with
         | Normal _ => [EvSetTimeout (sid (a_task a)) (next_timer s)]
         | Throw e => [EvUnhandled (sid (a_task a)) e]
         end /\
  (onResult (handlers (a_task a)) r = Normal tt ->
   timers (settle delay pid (Fulfilled r) s)
   = timers s ++ [{| t_id := next_timer s;
                     t_due := now s + Z.max 0 delay;
                     t_task := a_task a |}] /\
   timer (settle delay pid (Fulfilled r) s) = Some (next_timer s)).
Proof.
  intros Hf Hs. rewrite (settle_found pid (Fulfilled r) s a Hf).
  unfold poll_resume. simpl. rewrite Hs. split.
  - destruct (onResult (handlers (a_task a)) r) as [[]|e]; simpl;
      rewrite <- app_assoc; reflexivity.
  - intros ->. simpl. split; reflexivity.
Qed.

Lemma settle_fulfilled_stopped (s : St) (pid : nat) (a : Await) (r : R) :
  find (fun b => a_pid b =? pid) (awaiting s) = Some a ->
  stop s = true ->
  settle delay pid (Fulfilled r) s
  = with_awaiting (filter (fun b => negb (a_pid b =? pid)) (awaiting s)) s.
Proof.
  intros Hf Hs. rewrite (settle_found pid (Fulfilled r) s a Hf).
  unfold poll_resume. simpl. rewrite Hs. reflexivity.
Qed.

Lemma start_fields (s : St) (params : list T) (h : Handlers) :
  fn params = Normal h ->
  let s' := step fn delay (Start params) s in
  stop s' = false /\
  trace s' = trace s ++ [EvRequest (next_session s) (next_promise s)] /\
  awaiting s' = awaiting s ++
                  [{| a_pid := next_promise s;
                      a_task := {| sid := next_session s; handlers := h |} |}] /\
  timers s' = timers s /\ next_timer s' = next_timer s /\
  timer s' = timer s.
Proof.
  intros Hfn. simpl. unfold start. rewrite Hfn. simpl. repeat split.
Qed.

(** ** The fuel of [advance] is enough *)

Lemma filter_length_lt (A : Type) (p : A -> bool) (l : list A) (x : A) :
  In x l -> p x = false -> length (filter p l) < length l.
Proof.
  induction l as [|y l IH]; simpl; [tauto|].
  intros [->|Hin] Hp.
  - rewrite Hp. pose proof (filter_length_le p l). lia.
  - specialize (IH Hin Hp). destruct (p y); simpl; lia.
Qed.

Lemma fire_shrinks (t : Timer) (s : St) :
  In t (timers s) -> length (timers (fire t s)) < length (timers s).
Proof.
  intros Hin. simpl. apply (filter_length_lt _ _ _ t Hin).
  rewrite Nat.eqb_refl. reflexivity.
Qed.

Lemma fire_due_complete (target : Z) (fuel : nat) :
  forall s : St, length (timers s) <= fuel ->
                 next_due target (fire_due fuel target s) = None.
Proof.
  induction fuel as [|fuel IH]; intros s Hlen; simpl.
  - unfold next_due. destruct (timers s); [reflexivity | simpl in Hlen; lia].
  - destruct (next_due target s) as [t|] eqn:E; [|exact E].
    apply IH. destruct (next_due_In target s t E) as [Hin _].
    pose proof (fire_shrinks t s Hin). lia.
Qed.

(** After [advance], no pending timer is due. *)
Lemma advance_fires_all_due (dt : Z) (s : St) :
  next_due (now s + Z.max 0 dt) (advance dt s) = None.
Proof.
  unfold advance.
  pose proof (fire_due_complete (now s + Z.max 0 dt) (length (timers s)) s
                (Nat.le_refl _)) as H.
  unfold next_due in *. simpl. exact H.
Qed.

(** With no request in flight and no timer pending, nothing but a start
    makes the poller do anything. *)
Lemma idle_step (a : Act) (s : St) :
  is_start a = false -> quiescent s ->
  quiescent (step fn delay a s) /\ trace (step fn delay a s) = trace s.
Proof.
  intros Ha [Haw Hts]. destruct a as [params|j|pid o|dt]; cbn [step];
    [discriminate| | |].
  - destruct (j <? next_session s); [|repeat split; auto].
    unfold stop_closure, quiescent. cbn [snd].
    destruct (timer s); simpl; rewrite ?Hts; repeat split; auto.
  - unfold settle. rewrite Haw. simpl. repeat split; auto.
  - unfold advance. rewrite Hts. simpl. repeat split; auto.
Qed.

Lemma idle_run (acts : list Act) (s : St) :
  no_start acts = true -> quiescent s ->
  quiescent (run fn delay acts s) /\ emitted fn delay acts s = [].
Proof.
  unfold emitted. revert s. induction acts as [|a acts IH]; intros s Hn Hq.
  - split; [exact Hq|]. simpl. apply skipn_all.
  - simpl in Hn. apply andb_true_iff in Hn. destruct Hn as [Ha Hn].
    apply negb_true_iff in Ha.
    destruct (idle_step a s Ha Hq) as [Hq' Ht]. cbn [run].
    rewrite <- Ht. apply IH; assumption.
Qed.

(** ** Moves: consumers that call back into the poller *)

Lemma play_app (ms1 ms2 : list (@Move R T Err)) (s : St) :
  play fn delay (ms1 ++ ms2) s = play fn delay ms2 (play fn delay ms1 s).
Proof. revert s. induction ms1 as [|m ms1 IH]; simpl; auto. Qed.

Lemma play_plain (acts : list Act) (s : St) :
  play fn delay (map (@Plain R T Err) acts) s = run fn delay acts s.
Proof. revert s. induction acts as [|a acts IH]; simpl; auto. Qed.

Lemma play_abiding (G : @Move R T Err -> St -> Prop) (I : St -> Prop)
  (P : Ev -> Prop) :
  (forall m s, G m s -> I s ->
               I (move fn delay m s) /\ emits P s (move fn delay m s)) ->
  forall ms s, abiding fn delay G ms s -> I s ->
               I (play fn delay ms s) /\ emits P s (play fn delay ms s).
Proof.
  intros Hstep. induction ms as [|m ms IH]; simpl; intros s HG HI.
  - split; [exact HI | apply emits_refl].
  - destruct HG as [Hm HG]. destruct (Hstep m s Hm HI) as [HI' He].
    destruct (IH _ HG HI') as [HI'' He']. split; [exact HI''|].
    eapply emits_trans; eauto.
Qed.

Lemma abiding_any (ms : list (@Move R T Err)) (s : St) :
  abiding fn delay (fun _ _ => True) ms s.
Proof. revert s. induction ms; simpl; auto. Qed.

Lemma abiding_app (G : @Move R T Err -> St -> Prop)
  (ms1 ms2 : list (@Move R T Err)) (s : St) :
  abiding fn delay G (ms1 ++ ms2) s <->
  abiding fn delay G ms1 s /\ abiding fn delay G ms2 (play fn delay ms1 s).
Proof.
  revert s. induction ms1 as [|m ms1 IH]; simpl; intros s; [tauto|].
  rewrite IH. tauto.
Qed.

Lemma no_host_start_abiding (ms : list (@Move R T Err)) (s : St) :
  no_host_start ms = true ->
  abiding fn delay (fun m _ => host_start m = false) ms s.
Proof.
  revert s. induction ms as [|m ms IH]; simpl; auto.
  intros s H. apply andb_true_iff in H. destruct H as [Hm H].
  split; [destruct (host_start m); simpl in *; congruence | auto].
Qed.

Lemma emits_shown (P : Ev -> Prop) (ms : list (@Move R T Err)) (s : St) :
  emits P s (play fn delay ms s) -> Forall P (shown fn delay ms s).
Proof.
  intros (evs & H & F). unfold shown. rewrite H, skipn_app_exact. exact F.
Qed.

(** The calls of a consumer are the actions the host would make. *)
Lemma calls_as_run (cs : list (@Call T)) (s : St) :
  0 < next_session s ->
  apply_calls fn cs s = run fn delay (map (@call_action R T Err) cs) s.
Proof.
  revert s. induction cs as [|c cs IH]; intros s Hpos; [reflexivity|].
  cbn [apply_calls map run].
  assert (E : apply_call fn c s = step fn delay (call_action c) s).
  { destruct c as [|params]; simpl; [|reflexivity].
    destruct (0 <? next_session s) eqn:E0; [reflexivity|].
    apply Nat.ltb_ge in E0. lia. }
  rewrite E. apply IH.
  destruct c as [|params]; simpl.
  - destruct (0 <? next_session s); [|exact Hpos].
    destruct (timer s); simpl; exact Hpos.
  - unfold start. destruct (fn params); simpl; lia.
Qed.

Lemma settle_calling_found (pid : nat) (r : R) (cs : list (@Call T)) (s : St)
  (a : Await) :
  find (fun b => a_pid b =? pid) (awaiting s) = Some a ->
  settle_calling fn delay pid r cs s =
  poll_resume_calling fn delay cs (a_task a) r
    (with_awaiting (filter (fun b => negb (a_pid b =? pid)) (awaiting s)) s).
Proof. intros H. unfold settle_calling. rewrite H. reflexivity. Qed.

(** With the flag set the consumer does not run, so its calls are not
    made; a consumer that calls nothing is the consumer of [settle]. *)
Lemma calling_stopped (pid : nat) (r : R) (cs : list (@Call T)) (s : St) :
  stop s = true ->
  settle_calling fn delay pid r cs s = settle delay pid (Fulfilled r) s.
Proof.
  intros Hs. unfold settle_calling, settle.
  destruct (find (fun a => a_pid a =? pid) (awaiting s)); [|reflexivity].
  unfold poll_resume_calling, poll_resume. simpl. rewrite Hs. reflexivity.
Qed.

Lemma calling_nothing (pid : nat) (r : R) (s : St) :
  settle_calling fn delay pid r [] s = settle delay pid (Fulfilled r) s.
Proof.
  unfold settle_calling, settle.
  destruct (find (fun a => a_pid a =? pid) (awaiting s)); reflexivity.
Qed.

(** A session without request or timer stays so, and silent, along any
    actions. *)
Lemma dead_keep_run (i : nat) (acts : list Act) (s : St) :
  i < next_session s -> threads i s = 0 ->
  (i < next_session (run fn delay acts s) /\
   threads i (run fn delay acts s) = 0) /\
  emits (fun e => ev_sid e <> i) s (run fn delay acts s).
Proof.
  intros Hlt H0.
  apply (run_guarded (fun _ _ => True)
           (fun s => i < next_session s /\ threads i s = 0)
           (fun e => ev_sid e <> i)
           (fun a s0 _ H => dead_step i a s0 H)
           acts s (guarded_any acts s) (conj Hlt H0)).
Qed.

(** What a fulfilment with calls does, case by case. *)
Lemma calling_cases (pid : nat) (r : R) (cs : list (@Call T)) (s : St) :
  settle_calling fn delay pid r cs s = s \/
  exists a,
    find (fun b => a_pid b =? pid) (awaiting s) = Some a /\
    let s1 := with_awaiting
                (filter (fun b => negb (a_pid b =? pid)) (awaiting s)) s in
    let s2 := apply_calls fn cs (emit (EvResult (sid (a_task a)) r) s1) in
    (stop s = true /\ settle_calling fn delay pid r cs s = s1) \/
    (stop s = false /\
     ((exists e, onResult (handlers (a_task a)) r = Throw e /\
                 settle_calling fn delay pid r cs s
                 = emit (EvUnhandled (sid (a_task a)) e) s2) \/
      (onResult (handlers (a_task a)) r = Normal tt /\
       settle_calling fn delay pid r cs s
       = with_timer (Some (next_timer s2))
           (snd (setTimeout (a_task a) delay s2))))).
Proof.
  unfold settle_calling.
  destruct (find (fun a => a_pid a =? pid) (awaiting s)) as [a|] eqn:E;
    [|left; reflexivity].
  right. exists a. split; [reflexivity|]. simpl.
  unfold poll_resume_calling. simpl.
  destruct (stop s); [left; split; reflexivity|].
  right. split; [reflexivity|].
  destruct (onResult (handlers (a_task a)) r) as [[]|e].
  - right. split; reflexivity.
  - left. exists e. split; reflexivity.
Qed.

Lemma wf_move (m : @Move R T Err) (s : St) : wf s -> wf (move fn delay m s).
Proof.
  intros W. destruct m as [a|pid r cs]; [apply wf_step; exact W|].
  cbn [move].
  destruct (calling_cases pid r cs s) as [->|(a & Hf & H)]; [exact W|].
  destruct (settled_session_idle s
              (with_awaiting
                 (filter (fun b => negb (a_pid b =? pid)) (awaiting s)) s)
              pid a W Hf eq_refl eq_refl eq_refl) as [Hlt H0].
  assert (W1 : wf (with_awaiting
                     (filter (fun b => negb (a_pid b =? pid)) (awaiting s)) s)).
  { destruct (find_some _ _ Hf) as [Hin Hp]. apply Nat.eqb_eq in Hp.
    apply (wf_le s); simpl; auto.
    - intros i.
      assert (Hq : negb (a_pid a =? pid) = false)
        by (rewrite Hp, Nat.eqb_refl; reflexivity).
      pose proof (threads_drop_await i
                    (fun b => negb (a_pid b =? pid)) a s Hin Hq).
      destruct (sid (a_task a) =? i); lia.
    - intros b Hb. apply filter_In in Hb. tauto. }
  simpl in H. destruct H as [[_ ->]|[_ H]]; [exact W1|].
  set (s1 := emit (EvResult (sid (a_task a)) r)
               (with_awaiting
                  (filter (fun b => negb (a_pid b =? pid)) (awaiting s)) s))
    in *.
  assert (Hpos : 0 < next_session s1) by (simpl in *; lia).
  rewrite (calls_as_run cs s1 Hpos) in H.
  assert (W2 : wf (run fn delay (map (@call_action R T Err) cs) s1))
    by (apply wf_run, wf_emit; exact W1).
  destruct (dead_keep_run (sid (a_task a)) (map (@call_action R T Err) cs) s1)
    as [[Hlt2 H02] _]; [exact Hlt | exact H0 |].
  destruct H as [(e & _ & ->)|(_ & ->)].
  - apply wf_emit. exact W2.
  - apply wf_setTimeout; assumption.
Qed.

Lemma wf_play (ms : list (@Move R T Err)) (s : St) :
  wf s -> wf (play fn delay ms s).
Proof.
  revert s. induction ms as [|m ms IH]; simpl; auto.
  intros s W. apply IH. apply wf_move. exact W.
Qed.
Lemma advance_early (dt : Z) (t : Timer) (s : St) :
  timers s = [t] ->
  (now s + Z.max 0 dt < t_due t)%Z ->
  advance dt s = with_now (now s + Z.max 0 dt) s.
Proof.
  intros Ht Hlt. unfold advance. rewrite Ht. simpl.
  unfold next_due. rewrite Ht. simpl.
  destruct (t_due t <=? now s + Z.max 0 dt)%Z eqn:E; [|reflexivity].
  apply Z.leb_le in E. lia.
Qed.

Lemma advance_late (dt : Z) (t : Timer) (s : St) :
  timers s = [t] ->
  (t_due t <= now s + Z.max 0 dt)%Z ->
  advance dt s = with_now (now s + Z.max 0 dt) (fire t s).
Proof.
  intros Ht Hle. unfold advance. rewrite Ht. simpl.
  unfold next_due. rewrite Ht. simpl.
  apply Z.leb_le in Hle. rewrite Hle. reflexivity.
Qed.


Lemma apply_calls_emits (cs : list (@Call T)) (s : St) :
  emits (fun _ => True) s (apply_calls fn cs s).
Proof.
  revert s. induction cs as [|c cs IH]; intros s; [apply emits_refl|].
  cbn [apply_calls]. eapply emits_trans; [|apply IH].
  destruct c as [|params]; simpl.
  - apply emits_same. destruct (timer s); reflexivity.
  - apply (step_emits (Start params) s).
Qed.

Lemma move_emits (m : @Move R T Err) (s : St) :
  emits (fun _ => True) s (move fn delay m s).
Proof.
  destruct m as [a|pid r cs]; [apply step_emits|]. cbn [move].
  destruct (calling_cases pid r cs s) as [->|(a & Hf & H)]; [apply emits_refl|].
  simpl in H. destruct H as [[_ ->]|[_ H]]; [apply emits_same; reflexivity|].
  assert (H1 : emits (fun _ : Ev => True) s
                 (apply_calls fn cs
                    (emit (EvResult (sid (a_task a)) r)
                       (with_awaiting
                          (filter (fun b => negb (a_pid b =? pid))
                             (awaiting s)) s)))).
  { eapply emits_trans; [|apply apply_calls_emits].
    apply emits_one with (e := EvResult (sid (a_task a)) r); [reflexivity|auto]. }
  destruct H as [(e & _ & ->)|(_ & ->)];
    (eapply emits_trans; [exact H1|]).
  - apply emits_one with (e := EvUnhandled (sid (a_task a)) e);
      [reflexivity | auto].
  - eapply emits_one; [reflexivity | auto].
Qed.

Lemma play_trace (ms : list (@Move R T Err)) (s : St) :
  trace (play fn delay ms s) = trace s ++ shown fn delay ms s.
Proof.
  assert (H : emits (fun _ => True) s (play fn delay ms s)).
  { refine (proj2 (play_abiding (fun _ _ => True) (fun _ => True)
                     (fun _ => True) _ ms s (abiding_any ms s) I)).
    intros m s0 _ _. split; [exact I | apply move_emits]. }
  destruct H as (evs & H & _). unfold shown. rewrite H, skipn_app_exact.
  reflexivity.
Qed.

Lemma shown_app (ms1 ms2 : list (@Move R T Err)) (s : St) :
  shown fn delay (ms1 ++ ms2) s =
  shown fn delay ms1 s ++ shown fn delay ms2 (play fn delay ms1 s).
Proof.
  apply (app_inv_head (trace s)).
  rewrite <- play_trace, play_app, play_trace, play_trace, app_assoc.
  reflexivity.
Qed.

Lemma shown_cons (m : @Move R T Err) (ms : list (@Move R T Err)) (s : St) :
  shown fn delay (m :: ms) s =
  shown fn delay [m] s ++ shown fn delay ms (move fn delay m s).
Proof. apply (shown_app [m] ms s). Qed.

Lemma shown_one (m : @Move R T Err) (s : St) (evs : list Ev) :
  trace (move fn delay m s) = trace s ++ evs -> shown fn delay [m] s = evs.
Proof. intros H. unfold shown. simpl. rewrite H. apply skipn_app_exact. Qed.

(** A session without request or timer stays so, and silent, along any
    moves, whatever the consumers call. *)
Lemma dead_move (i : nat) (m : @Move R T Err) (s : St) :
  i < next_session s /\ threads i s = 0 ->
  (i < next_session (move fn delay m s) /\
   threads i (move fn delay m s) = 0) /\
  emits (fun e => ev_sid e <> i) s (move fn delay m s).
Proof.
  intros [Hlt H0]. destruct m as [a|pid r cs];
    [apply dead_step; split; assumption|].
  cbn [move].
  destruct (calling_cases pid r cs s) as [->|(a & Hf & H)];
    [split; [split; assumption | apply emits_refl]|].
  destruct (find_some _ _ Hf) as [Hin Hp]. apply Nat.eqb_eq in Hp.
  pose proof (threads_await_pos a s Hin) as Hpos.
  assert (Hne : sid (a_task a) <> i)
    by (intros Heq; rewrite Heq in Hpos; lia).
  assert (Hq : negb (a_pid a =? pid) = false)
    by (rewrite Hp, Nat.eqb_refl; reflexivity).
  pose proof (threads_drop_await i (fun b => negb (a_pid b =? pid)) a s Hin Hq)
    as Hth.
  set (s1 := with_awaiting
               (filter (fun b => negb (a_pid b =? pid)) (awaiting s)) s) in *.
  assert (H1 : threads i s1 = 0) by lia.
  simpl in H. destruct H as [[_ ->]|[_ H]];
    [split; [split; assumption | apply emits_same; reflexivity]|].
  set (s1e := emit (EvResult (sid (a_task a)) r) s1) in *.
  assert (Hposn : 0 < next_session s1e) by (simpl; lia).
  rewrite (calls_as_run cs s1e Hposn) in H.
  destruct (dead_keep_run i (map (@call_action R T Err) cs) s1e Hlt H1)
    as [[Hlt2 H02] He2].
  assert (He : emits (fun e => ev_sid e <> i) s
                 (run fn delay (map (@call_action R T Err) cs) s1e)).
  { eapply emits_trans; [|exact He2].
    apply emits_one with (e := EvResult (sid (a_task a)) r);
      [reflexivity | exact Hne]. }
  destruct H as [(e & _ & ->)|(_ & ->)].
  - split; [split; assumption|].
    eapply emits_trans; [exact He|].
    apply emits_one with (e := EvUnhandled (sid (a_task a)) e);
      [reflexivity | exact Hne].
  - split; [split; [exact Hlt2|]|].
    + rewrite (threads_ext i (snd (setTimeout (a_task a) delay
                (run fn delay (map (@call_action R T Err) cs) s1e))))
        by reflexivity.
      rewrite threads_setTimeout. apply Nat.eqb_neq in Hne. rewrite Hne. lia.
    + eapply emits_trans; [exact He|].
      eapply emits_one; [reflexivity | exact Hne].
Qed.

Lemma dead_play (i : nat) (ms : list (@Move R T Err)) (s : St) :
  i < next_session s -> threads i s = 0 ->
  Forall (fun e => ev_sid e <> i) (shown fn delay ms s).
Proof.
  intros Hlt H0. apply emits_shown.
  refine (proj2 (play_abiding (fun _ _ => True)
                   (fun s => i < next_session s /\ threads i s = 0)
                   (fun e => ev_sid e <> i) _ ms s
                   (abiding_any ms s) (conj Hlt H0))).
  intros m s0 _ H. apply dead_move. exact H.
Qed.

(** With the flag set, moves are actions. *)
Lemma stopped_move (m : @Move R T Err) (s : St) :
  host_start m = false -> stop s = true ->
  stop (move fn delay m s) = true /\
  emits (fun e => is_result e = false /\ is_timeout e = false)
        s (move fn delay m s).
Proof.
  intros Hm Hs. destruct m as [a|pid r cs]; cbn [move].
  - apply stopped_step; assumption.
  - rewrite (calling_stopped pid r cs s Hs).
    apply (stopped_step (Settle pid (Fulfilled r)) s eq_refl Hs).
Qed.


Lemma stopped_play (tail : list (@Move R T Err)) (s : St) :
  stop s = true -> no_host_start tail = true ->
  stop (play fn delay tail s) = true /\
  Forall (fun e => is_result e = false /\ is_timeout e = false)
         (shown fn delay tail s).
Proof.
  intros Hs Hn.
  destruct (play_abiding (fun m _ => host_start m = false)
              (fun s => stop s = true)
              (fun e => is_result e = false /\ is_timeout e = false)
              (fun m s0 Hm H => stopped_move m s0 Hm H)
              tail s (no_host_start_abiding tail s Hn) Hs) as [H1 H2].
  split; [exact H1 | apply emits_shown; exact H2].
Qed.


(** Calls that are all stops leave the requests alone and set no timer. *)
Lemma only_stops (cs : list (@Call T)) (s : St) :
  forallb (fun c => negb (is_call_start c)) cs = true ->
  awaiting (apply_calls fn cs s) = awaiting s /\
  trace (apply_calls fn cs s) = trace s /\
  next_timer (apply_calls fn cs s) = next_timer s /\
  (timers s = [] -> timers (apply_calls fn cs s) = []).
Proof.
  revert s. induction cs as [|c cs IH]; intros s H; [repeat split; auto|].
  simpl in H. apply andb_true_iff in H. destruct H as [Hc H].
  destruct c as [|params]; [|discriminate Hc].
  cbn [apply_calls apply_call stop_closure snd].
  destruct (IH (clearTimeout (timer s) (with_stop true s)) H)
    as (Ha & Htr & Hnt & Ht).
  destruct (clearTimeout_fields (timer s) (with_stop true s))
    as (_ & Htr' & Ha' & Hnt' & _).
  rewrite Ha, Htr, Hnt, Ha', Htr', Hnt'. repeat split.
  intros Hts. apply Ht. destruct (timer s); simpl; rewrite ?Hts; reflexivity.
Qed.

(** Sessions that do not overlap, with consumers that may call stop. *)
Lemma solo_move (m : @Move R T Err) (s : St) :
  in_turn m s -> solo s ->
  solo (move fn delay m s) /\ emits (fun _ => True) s (move fn delay m s).
Proof.
  intros Hm Hsolo. split; [|apply move_emits].
  destruct m as [a|pid r cs]; [apply (solo_step a s Hm Hsolo)|].
  cbn [move]. cbn [in_turn] in Hm.
  destruct (calling_cases pid r cs s) as [->|(a & Hf & H)]; [exact Hsolo|].
  destruct Hsolo as [Hlen Htm].
  destruct (find_some _ _ Hf) as [Hin Hp]. apply Nat.eqb_eq in Hp.
  assert (Haw : 1 <= length (awaiting s))
    by (destruct (awaiting s); simpl in *; [tauto | lia]).
  assert (Hnil : filter (fun b => negb (a_pid b =? pid)) (awaiting s) = []).
  { apply (filter_drop_nil _ _ _ a Hin); [|lia].
    rewrite Hp, Nat.eqb_refl. reflexivity. }
  assert (Hts : timers s = [])
    by (destruct (timers s); simpl in *; [reflexivity | lia]).
  simpl in H. rewrite Hnil in H. destruct H as [[_ ->]|[_ H]].
  - split; simpl; rewrite ?Hts; simpl; [lia | tauto].
  - destruct (only_stops cs
                (emit (EvResult (sid (a_task a)) r) (with_awaiting [] s)) Hm)
      as (Ha & _ & _ & Ht).
    cbn [awaiting timers emit with_awaiting] in Ha, Ht. specialize (Ht Hts).
    remember (apply_calls fn cs
                (emit (EvResult (sid (a_task a)) r) (with_awaiting [] s)))
      as s2 eqn:E2.
    clear E2. destruct H as [(e & _ & ->)|(_ & ->)].
    + split; simpl; rewrite ?Ha, ?Ht; simpl; [lia | tauto].
    + split; simpl; rewrite ?Ha, ?Ht; simpl; [lia|].
      intros t [<-|[]]. reflexivity.
Qed.

Lemma solo_play (ms : list (@Move R T Err)) (s : St) :
  orderly fn delay ms s -> solo s -> solo (play fn delay ms s).
Proof.
  intros HG HS.
  exact (proj1 (play_abiding in_turn solo (fun _ => True) solo_move
                  ms s HG HS)).
Qed.

(** A stop made by the host on a poller whose sessions did not overlap. *)
Lemma host_stop_core (ms : list (@Move R T Err)) (i : nat) :
  orderly fn delay ms init ->
  i < next_session (play fn delay ms init) ->
  let s1 := play fn delay (ms ++ [Plain (Stop i)]) init in
  timers s1 = [] /\ stop s1 = true /\
  awaiting s1 = awaiting (play fn delay ms init) /\
  length (awaiting s1) <= 1 /\
  next_session s1 = next_session (play fn delay ms init) /\ wf s1.
Proof.
  intros Hord Hi s1.
  pose proof (solo_play ms init Hord solo_init) as Hsolo.
  assert (E : s1 = snd (stop_closure (Err := Err) (play fn delay ms init))).
  { unfold s1. rewrite play_app. cbn [play move].
    rewrite (stop_step i _ Hi). reflexivity. }
  destruct (clearTimeout_fields (timer (play fn delay ms init))
              (with_stop true (play fn delay ms init)))
    as (Hs & _ & Ha & _ & _ & Hn & _).
  split; [rewrite E; apply solo_stop_clears; exact Hsolo|].
  split; [rewrite E; simpl; rewrite Hs; reflexivity|].
  split; [rewrite E; simpl; rewrite Ha; reflexivity|].
  split; [rewrite E; simpl; rewrite Ha; simpl; destruct Hsolo; lia|].
  split; [rewrite E; simpl; rewrite Hn; reflexivity|].
  unfold s1. apply wf_play, wf_init.
Qed.

(** A stop made by the consumer while it runs: the timer of the
    iteration is set all the same, after the consumer returned. *)
Lemma stop_within_consumer (s : St) (pid : nat) (a : Await) (r : R) :
  find (fun b => a_pid b =? pid) (awaiting s) = Some a ->
  stop s = false ->
  onResult (handlers (a_task a)) r = Normal tt ->
  let s' := settle_calling fn delay pid r [CallStop] s in
  trace s' = trace s ++ [EvResult (sid (a_task a)) r;
                         EvSetTimeout (sid (a_task a)) (next_timer s)] /\
  stop s' = true /\
  now s' = now s /\ next_promise s' = next_promise s /\
  (timers s = [] ->
   timers s' = [{| t_id := next_timer s; t_due := now s + Z.max 0 delay;
                   t_task := a_task a |}]).
Proof.
  intros Hf Hs Hk s'. unfold s'.
  rewrite (settle_calling_found pid r [CallStop] s a Hf).
  unfold poll_resume_calling. simpl. rewrite Hs, Hk.
  destruct (timer s) as [id|]; simpl; rewrite <- app_assoc;
    (split; [reflexivity|]); repeat split; intros ->; reflexivity.
Qed.

(** ** After a stop, with later sessions *)







(** * The claims *)

(** C1. For every delay [d >= 0] and every finite sequence of results
    [r1..rn] fulfilled by the requests of a session (each after an arbitrary
    latency), starting the session on a new poller and letting it run [n]
    iterations shows exactly: request, then for each [ri] the call
    [onResult(ri)], the timer, and only then the next request.  After
    [stop], whatever the host does short of calling [start] again, the
    consumer has received exactly [r1..rn], in that order. *)
Theorem results_delivered_in_order (params : list T) (h : Handlers)
  (lrs : list (Z * R)) (tail : list Act) :
  (0 <= delay)%Z ->
  fn params = Normal h ->
  (forall r, In r (map snd lrs) -> onResult h r = Normal tt) ->
  no_start tail = true ->
  trace (run fn delay (Start params :: iterations delay 0 lrs) init)
  = EvRequest 0 0 :: iteration_events 0 1 0 (map snd lrs) /\
  deliveries 0
    (trace (run fn delay
              (Start params :: iterations delay 0 lrs ++ Stop 0 :: tail) init))
  = map snd lrs.
Proof.
  intros _ Hfn Hk Hn.
  destruct (session_run init params h lrs Hfn eq_refl (Forall_nil _) Hk)
    as (tm' & nw' & Hrun).
  cbn [init next_promise next_session next_timer awaiting trace app Nat.add]
    in Hrun.
  split; [rewrite Hrun; reflexivity|].
  change (Start params :: iterations delay 0 lrs ++ Stop 0 :: tail)
    with ((Start params :: iterations delay 0 lrs) ++ Stop 0 :: tail).
  rewrite run_app, Hrun.
  set (s1 := mkState _ _ _ _ _ _ _ _ _).
  rewrite run_trace, emitted_cons, emitted_stop. simpl app.
  cbn [deliveries]. rewrite deliveries_app, deliveries_iteration_events.
  rewrite deliveries_no_result; [apply app_nil_r|].
  assert (Hs : stop (clearTimeout tm' (with_stop true s1)) = true)
    by (destruct tm'; reflexivity).
  destruct (stopped_run tail _ Hs Hn) as [_ F].
  eapply Forall_impl; [|exact F]. simpl. tauto.
Qed.

(** C2, as amended.  Once [stop] has been invoked while no callback of
    the poller is running, and for as long as the host does not call
    [start] again, no consumer is invoked and no timer is set, whatever
    else happens.  A request in flight at that moment runs to completion
    and its result is dropped without a trace; once that has happened its
    session stays silent for good, even if [start] is called later and
    whatever consumers call.  In particular, [stop] right after [start]
    leaves the consumer uninvoked.  A [stop] invoked by the consumer
    while it runs is different: the flag was read before the consumer was
    called, so the timer of that iteration is set after it returns; from
    then on no consumer is invoked and no further timer is set. *)
Theorem stop_silences_until_restart (ms tail : list (@Move R T Err))
  (i : nat) :
  let s := play fn delay ms init in
  i < next_session s ->
  no_host_start tail = true ->
  let s1 := move fn delay (Plain (Stop i)) s in
  Forall (fun e => is_result e = false /\ is_timeout e = false)
         (shown fn delay tail s1) /\
  (forall pid a r later,
      find (fun b => a_pid b =? pid) (awaiting s1) = Some a ->
      let s2 := move fn delay (Plain (Settle pid (Fulfilled r))) s1 in
      trace s2 = trace s1 /\ timers s2 = timers s1 /\
      find (fun b => a_pid b =? pid) (awaiting s2) = None /\
      Forall (fun e => ev_sid e <> sid (a_task a))
             (shown fn delay later s2)) /\
  (forall params h,
      fn params = Normal h ->
      Forall (fun e => is_result e = false)
        (trace (play fn delay
                  (Plain (Start params) :: Plain (Stop 0) :: tail) init))) /\
  (forall pid a r,
      find (fun b => a_pid b =? pid) (awaiting s) = Some a ->
      stop s = false ->
      onResult (handlers (a_task a)) r = Normal tt ->
      let s' := move fn delay (Calling pid r [CallStop]) s in
      shown fn delay [Calling pid r [CallStop]] s
      = [EvResult (sid (a_task a)) r;
         EvSetTimeout (sid (a_task a)) (next_timer s)] /\
      stop s' = true /\
      Forall (fun e => is_result e = false /\ is_timeout e = false)
             (shown fn delay tail s')).
Proof.
  intros s Hi Hn s1.
  assert (Hs1 : stop s1 = true).
  { unfold s1. cbn [move]. rewrite (stop_step i s Hi).
    destruct (clearTimeout_fields (timer s) (with_stop true s)) as (-> & _).
    reflexivity. }
  assert (W1 : wf s1) by (apply wf_move, wf_play, wf_init).
  split; [apply (stopped_play tail s1 Hs1 Hn)|]. split; [|split].
  - intros pid a r later Hf s2.
    assert (E : s2 = with_awaiting
                       (filter (fun b => negb (a_pid b =? pid)) (awaiting s1))
                       s1).
    { unfold s2. cbn [move step].
      apply (settle_fulfilled_stopped s1 pid a r Hf Hs1). }
    rewrite E. repeat split; [apply find_filter_none|].
    destruct (settled_session_idle s1
                (with_awaiting
                   (filter (fun b => negb (a_pid b =? pid)) (awaiting s1)) s1)
                pid a W1 Hf eq_refl eq_refl eq_refl) as [Hlt H0].
    apply dead_play; assumption.
  - intros params h Hfn.
    rewrite play_trace, (shown_cons (Plain (Start params))),
      (shown_cons (Plain (Stop 0)) tail),
      (shown_one (Plain (Stop 0)) _ []).
    + simpl app. apply Forall_app. split.
      * rewrite (shown_one (Plain (Start params)) init [EvRequest 0 0]).
        -- constructor; [reflexivity | constructor].
        -- simpl. unfold start. rewrite Hfn. reflexivity.
      * assert (Hs : stop (move fn delay (Plain (Stop 0))
                             (move fn delay (Plain (Start params)) init))
                     = true).
        { simpl. unfold start. rewrite Hfn. reflexivity. }
        destruct (stopped_play tail _ Hs Hn) as [_ F].
        eapply Forall_impl; [|exact F]. simpl. tauto.
    + rewrite app_nil_r. simpl. unfold start. rewrite Hfn. reflexivity.
  - intros pid a r Hf Hs Hk s'.
    destruct (stop_within_consumer s pid a r Hf Hs Hk)
      as (Htr & Hs' & _).
    split; [apply shown_one; exact Htr|]. split; [exact Hs'|].
    apply (stopped_play tail s' Hs' Hn).
Qed.


(** C4. The stopped flag is one variable shared by every session of the
    poller: the closures returned by different [start] calls do the same
    thing to the same state, each sets the flag, each [start] clears it,
    and so the stop of any session discards the result of a request in
    flight of any other session, a result that would have been delivered
    had that stop not been called. *)
Theorem one_stop_flag_for_all_sessions (s : St) (i pid : nat) (a : Await)
  (r : R) :
  i < next_session s ->
  find (fun b => a_pid b =? pid) (awaiting s) = Some a ->
  (forall j, j < next_session s ->
             step fn delay (Stop j) s = step fn delay (Stop i) s) /\
  stop (step fn delay (Stop i) s) = true /\
  (forall params h, fn params = Normal h ->
                    stop (step fn delay (Start params) s) = false) /\
  emitted fn delay [Stop i; Settle pid (Fulfilled r)] s = [] /\
  (stop s = false ->
   exists evs, emitted fn delay [Settle pid (Fulfilled r)] s
               = EvResult (sid (a_task a)) r :: evs).
Proof.
  intros Hi Hf. split; [|split; [|split; [|split]]].
  - intros j Hj. rewrite (stop_step i s Hi), (stop_step j s Hj). reflexivity.
  - rewrite (stop_step i s Hi).
    destruct (clearTimeout_fields (timer s) (with_stop true s)) as (-> & _).
    reflexivity.
  - intros params h Hfn. simpl. unfold start. rewrite Hfn. reflexivity.
  - rewrite emitted_cons, emitted_stop. cbn [app]. apply emitted_one.
    rewrite app_nil_r, (stop_step i s Hi). simpl.
    destruct (clearTimeout_fields (timer s) (with_stop true s))
      as (Hs & _ & Ha & _).
    rewrite (settle_found pid (Fulfilled r) _ a) by (rewrite Ha; exact Hf).
    simpl. rewrite Hs. reflexivity.
  - intros Hs. simpl. rewrite (emitted_one (Settle pid (Fulfilled r)) s
      (EvResult (sid (a_task a)) r ::
         match onResult (handlers (a_task a)) r with
         | Normal _ => [EvSetTimeout (sid (a_task a)) (next_timer s)]
         | Throw e => [EvUnhandled (sid (a_task a)) e]
         end)).
    + eexists. reflexivity.
    + simpl. rewrite (settle_found pid (Fulfilled r) s a Hf). simpl.
      rewrite Hs. destruct (onResult (handlers (a_task a)) r) as [[]|e];
        simpl; rewrite <- app_assoc; reflexivity.
Qed.

(** C5. When the request of a session rejects, the poller does not catch
    it: the only thing that happens is the unhandled rejection ([onResult]
    is not called, no timer is set), the session has no request or timer
    left, and nothing the host does afterwards makes that session issue a
    request, receive a result or set a timer.  The stop closure reports
    nothing either: it returns normally in every state. *)
Theorem request_failure_ends_session (acts tail : list Act) (pid : nat)
  (a : Await) (e : Err) :
  let s := run fn delay acts init in
  find (fun b => a_pid b =? pid) (awaiting s) = Some a ->
  let s' := step fn delay (Settle pid (Rejected e)) s in
  emitted fn delay [Settle pid (Rejected e)] s
  = [EvUnhandled (sid (a_task a)) e] /\
  timers s' = timers s /\
  threads (sid (a_task a)) s' = 0 /\
  Forall (fun ev => ev_sid ev <> sid (a_task a)) (emitted fn delay tail s') /\
  (forall s0 : St, fst (stop_closure (Err := Err) s0) = Normal tt).
Proof.
  intros s Hf s'.
  assert (W : wf s) by (apply wf_run, wf_init).
  assert (E : s' = emit (EvUnhandled (sid (a_task a)) e)
                     (with_awaiting
                        (filter (fun b => negb (a_pid b =? pid)) (awaiting s))
                        s)).
  { unfold s'. simpl. rewrite (settle_found pid (Rejected e) s a Hf).
    reflexivity. }
  destruct (settled_session_idle s s' pid a W Hf) as [Hlt H0];
    try (rewrite E; reflexivity).
  split; [|split; [|split; [|split]]].
  - apply emitted_one. fold s'. rewrite E. reflexivity.
  - rewrite E. reflexivity.
  - exact H0.
  - apply dead_run; assumption.
  - reflexivity.
Qed.

(** C7. In every reachable state, whatever the host did, a session has at
    most one request in flight, and never a request in flight together
    with a scheduled timer: the next request is only scheduled once the
    current one has completed. *)
Theorem one_request_in_flight (acts : list Act) (i : nat) :
  length (in_flight i (run fn delay acts init)) <= 1 /\
  length (in_flight i (run fn delay acts init))
  + length (scheduled i (run fn delay acts init)) <= 1.
Proof.
  destruct (wf_run acts init wf_init) as (W1 & _). specialize (W1 i).
  unfold threads in W1. lia.
Qed.

(** C8. The stop closure returns normally in every state, also when no
    timer was ever set; it emits nothing and touches no request in
    flight; with no timer set it leaves the timer queue alone; and a
    second call leaves the state exactly as the first left it. *)
Theorem stop_is_total_and_idempotent (s : St) (i : nat) :
  exists s1 : St,
    stop_closure (Err := Err) s = (Normal tt, s1) /\
    stop_closure (Err := Err) s1 = (Normal tt, s1) /\
    trace s1 = trace s /\
    awaiting s1 = awaiting s /\
    (timer s = None -> timers s1 = timers s) /\
    step fn delay (Stop i) (step fn delay (Stop i) s)
    = step fn delay (Stop i) s.
Proof.
  exists (clearTimeout (timer s) (with_stop true s)).
  assert (Hidem : forall s0 : St,
             clearTimeout (timer (clearTimeout (timer s0) (with_stop true s0)))
               (with_stop true (clearTimeout (timer s0) (with_stop true s0)))
             = clearTimeout (timer s0) (with_stop true s0)).
  { intros s0. destruct (timer s0) as [id|] eqn:E; simpl; rewrite E; simpl.
    - unfold with_timers, with_stop. simpl. rewrite filter_idem. reflexivity.
    - reflexivity. }
  repeat split.
  - unfold stop_closure. rewrite Hidem. reflexivity.
  - destruct (timer s); reflexivity.
  - destruct (timer s); reflexivity.
  - intros ->. reflexivity.
  - simpl. destruct (i <? next_session s) eqn:E.
    + destruct (clearTimeout_fields (timer s) (with_stop true s))
        as (_ & _ & _ & _ & _ & -> & _).
      simpl. rewrite E. apply Hidem.
    + rewrite E. reflexivity.
Qed.


(** C9. If [stop] is called while a request is in flight and [start] is
    called again before that request settles, the new [start] clears the
    shared flag, so when the old request fulfils its result is delivered
    to the old consumer and the old loop is scheduled again; without the
    new [start] the same result is dropped. *)
Theorem restart_resurrects_stopped_session (s : St) (i pid : nat) (a : Await)
  (params : list T) (h : Handlers) (r : R) :
  i < next_session s ->
  find (fun b => a_pid b =? pid) (awaiting s) = Some a ->
  fn params = Normal h ->
  stop (run fn delay [Stop i; Start params] s) = false /\
  emitted fn delay [Stop i; Start params; Settle pid (Fulfilled r)] s
  = EvRequest (next_session s) (next_promise s)
      :: EvResult (sid (a_task a)) r
      :: match onResult (handlers (a_task a)) r with
         | Normal _ => [EvSetTimeout (sid (a_task a)) (next_timer s)]
         | Throw e => [EvUnhandled (sid (a_task a)) e]
         end /\
  (onResult (handlers (a_task a)) r = Normal tt ->
   exists t, In t (timers (run fn delay
                             [Stop i; Start params; Settle pid (Fulfilled r)] s))
             /\ t_task t = a_task a) /\
  emitted fn delay [Stop i; Settle pid (Fulfilled r)] s = [].
Proof.
  intros Hi Hf Hfn.
  destruct (clearTimeout_fields (timer s) (with_stop true s))
    as (Hs & Htr & Ha & Hnt & Hnp & Hns & _).
  rewrite <- (stop_step i s Hi) in Hs, Htr, Ha, Hnt, Hnp, Hns.
  remember (step fn delay (Stop i) s) as s1 eqn:E1.
  simpl in Hs.
  destruct (start_fields s1 params h Hfn)
    as (Hs2 & Htr2 & Ha2 & _ & Hnt2 & _).
  remember (step fn delay (Start params) s1) as s2 eqn:E2.
  assert (Hf2 : find (fun b => a_pid b =? pid) (awaiting s2) = Some a)
    by (rewrite Ha2; apply find_app_found; rewrite Ha; exact Hf).
  destruct (settle_fulfilled_live s2 pid a r Hf2 Hs2) as (Htr3 & Htm3).
  split; [|split; [|split]].
  - cbn [run]. rewrite <- E1, <- E2. exact Hs2.
  - rewrite emitted_cons, emitted_stop, <- E1, emitted_cons, <- E2.
    cbn [app].
    rewrite (emitted_one (Start params) s1
               [EvRequest (next_session s) (next_promise s)])
      by (rewrite <- E2, Htr2, Hns, Hnp; reflexivity).
    cbn [app]. f_equal. apply emitted_one. cbn [step].
    rewrite Htr3, Hnt2, Hnt. reflexivity.
  - intros Hk. cbn [run step]. cbn [step] in E1, E2. rewrite <- E1, <- E2.
    destruct (Htm3 Hk) as (-> & _). eexists.
    split; [apply in_or_app; right; left; reflexivity | reflexivity].
  - rewrite emitted_cons, emitted_stop, <- E1. cbn [app]. apply emitted_one.
    cbn [step].
    rewrite (settle_fulfilled_stopped s1 pid a r) by (rewrite ?Ha; assumption).
    rewrite app_nil_r. reflexivity.
Qed.

(** C10. Within an iteration [onResult] is called before the timer is set.
    So when the consumer throws, the call is followed by the unhandled
    rejection only: no timer is set, the session has no request or timer
    left, and nothing the host does afterwards makes it issue a request,
    receive a result or set a timer, exactly as after a failed request. *)
Theorem consumer_failure_ends_session (acts tail : list Act) (pid : nat)
  (a : Await) (r : R) :
  let s := run fn delay acts init in
  find (fun b => a_pid b =? pid) (awaiting s) = Some a ->
  stop s = false ->
  let s' := step fn delay (Settle pid (Fulfilled r)) s in
  (onResult (handlers (a_task a)) r = Normal tt ->
   emitted fn delay [Settle pid (Fulfilled r)] s
   = [EvResult (sid (a_task a)) r;
      EvSetTimeout (sid (a_task a)) (next_timer s)]) /\
  (forall e, onResult (handlers (a_task a)) r = Throw e ->
     emitted fn delay [Settle pid (Fulfilled r)] s
     = [EvResult (sid (a_task a)) r; EvUnhandled (sid (a_task a)) e] /\
     timers s' = timers s /\
     threads (sid (a_task a)) s' = 0 /\
     Forall (fun ev => ev_sid ev <> sid (a_task a))
            (emitted fn delay tail s')).
Proof.
  intros s Hf Hs s'.
  assert (W : wf s) by (apply wf_run, wf_init).
  split.
  - intros Hk. apply emitted_one. simpl.
    rewrite (settle_found pid (Fulfilled r) s a Hf). simpl.
    rewrite Hs, Hk. simpl. rewrite <- app_assoc. reflexivity.
  - intros e Hk.
    assert (E : s' = emit (EvUnhandled (sid (a_task a)) e)
                       (emit (EvResult (sid (a_task a)) r)
                          (with_awaiting
                             (filter (fun b => negb (a_pid b =? pid))
                                (awaiting s)) s))).
    { unfold s'. simpl. rewrite (settle_found pid (Fulfilled r) s a Hf).
      simpl. rewrite Hs, Hk. reflexivity. }
    destruct (settled_session_idle s s' pid a W Hf) as [Hlt H0];
      try (rewrite E; reflexivity).
    split; [|split; [|split]].
    + apply emitted_one. fold s'. rewrite E. simpl.
      rewrite <- app_assoc. reflexivity.
    + rewrite E. reflexivity.
    + exact H0.
    + apply dead_run; assumption.
Qed.

(** * Further properties of the poller *)

(** ** The order of a session's events, in every schedule *)

Lemma count_ev_snoc (p : Ev -> bool) (i : nat) (evs : list Ev) (e : Ev) :
  count_ev p i (evs ++ [e])
  = count_ev p i evs + (if p e && (ev_sid e =? i) then 1 else 0).
Proof. unfold count_ev. apply filter_length_snoc. Qed.

Lemma count_ev_fresh (p : Ev -> bool) (i n : nat) (evs : list Ev) :
  Forall (fun e => ev_sid e < n) evs -> n <= i -> count_ev p i evs = 0.
Proof.
  intros F Hle. unfold count_ev. induction F as [|e evs He _ IH]; simpl; auto.
  destruct (ev_sid e =? i) eqn:E; [apply Nat.eqb_eq in E; lia|].
  rewrite andb_false_r. exact IH.
Qed.

Lemma protocol_fire (i : nat) (t : Timer) (s : St) :
  In t (timers s) -> protocol i s -> protocol i (fire t s).
Proof.
  intros Hin (A & B & C). unfold protocol, in_flight, scheduled in *.
  simpl. rewrite !count_ev_snoc, filter_length_snoc. simpl.
  set (p := fun u : @Timer R Err => negb (t_id u =? t_id t)).
  assert (Hp : p t = false) by (unfold p; rewrite Nat.eqb_refl; reflexivity).
  destruct (sid (t_task t) =? i) eqn:E.
  - pose proof (filter_filter_lt _ p (fun u => sid (t_task u) =? i)
                  (timers s) t Hin Hp E). lia.
  - pose proof (filter_filter_le _ p (fun u => sid (t_task u) =? i) (timers s)).
    lia.
Qed.

Lemma step_emits_settle (k : Task) (o : outcome R Err) (s0 s1 : St) :
  trace s1 = trace s0 ->
  emits (fun _ => True) s0 (poll_resume delay k o s1).
Proof.
  intros Ht. unfold poll_resume. destruct o as [r|e]; simpl.
  - destruct (stop s1); [apply emits_same; exact Ht|].
    destruct (onResult (handlers k) r) as [[]|e]; simpl.
    + exists [EvResult (sid k) r; EvSetTimeout (sid k) (next_timer s1)].
      simpl. rewrite Ht, <- app_assoc. auto.
    + exists [EvResult (sid k) r; EvUnhandled (sid k) e].
      simpl. rewrite Ht, <- app_assoc. auto.
  - apply emits_one with (e := EvUnhandled (sid k) e); [|exact I].
    simpl. rewrite Ht. reflexivity.
Qed.

Lemma protocol_settle (i pid : nat) (o : outcome R Err) (s : St) :
  protocol i s -> protocol i (settle delay pid o s).
Proof.
  intros H.
  refine (proj1 (settle_rel (protocol i) (fun _ => True) pid o s _ H)).
  intros a Hin Hpid s1. split; [|apply step_emits_settle; reflexivity].
  destruct H as (A & B & C).
  set (p := fun b : @Await R Err => negb (a_pid b =? pid)) in *.
  assert (Hp : p a = false)
    by (unfold p; rewrite Hpid, Nat.eqb_refl; reflexivity).
  assert (Hfl : length (filter (fun b => sid (a_task b) =? i)
                          (filter p (awaiting s)))
                + (if sid (a_task a) =? i then 1 else 0)
                <= length (filter (fun b => sid (a_task b) =? i) (awaiting s))).
  { destruct (sid (a_task a) =? i) eqn:E.
    - pose proof (filter_filter_lt _ p (fun b => sid (a_task b) =? i)
                    (awaiting s) a Hin Hp E). lia.
    - pose proof (filter_filter_le _ p (fun b => sid (a_task b) =? i)
                    (awaiting s)). lia. }
  unfold poll_resume, s1, protocol, in_flight, scheduled in *.
  destruct o as [r|e]; simpl.
  - destruct (stop s); simpl; [lia|].
    destruct (onResult (handlers (a_task a)) r) as [[]|e]; simpl;
      rewrite !count_ev_snoc, ?filter_length_snoc; simpl;
      destruct (sid (a_task a) =? i); lia.
  - rewrite !count_ev_snoc. simpl. lia.
Qed.

Lemma protocol_step (a : Act) (s : St) :
  wf s ->
  Forall (fun e => ev_sid e < next_session s) (trace s) ->
  (forall i, protocol i s) ->
  forall i, protocol i (step fn delay a s).
Proof.
  intros W F H i. destruct a as [params|j|pid o|dt]; simpl.
  - unfold start. destruct (fn params) as [h|e]; simpl; [|apply H].
    destruct (H i) as (A & B & C). destruct W as (_ & W2 & _).
    unfold protocol, in_flight, scheduled in *. simpl.
    rewrite !count_ev_snoc, filter_length_snoc. simpl.
    destruct (next_session s =? i) eqn:E; [|lia].
    apply Nat.eqb_eq in E. subst i.
    rewrite (count_ev_fresh is_request _ _ _ F (Nat.le_refl _)) in *.
    specialize (W2 _ (Nat.le_refl _)).
    unfold threads, in_flight, scheduled in W2. lia.
  - destruct (j <? next_session s); [|apply H].
    destruct (H i) as (A & B & C).
    unfold protocol, in_flight, scheduled in *.
    destruct (timer s) as [id|]; simpl; [|lia].
    pose proof (filter_filter_le _ (fun t => negb (t_id t =? id))
                  (fun t => sid (t_task t) =? i) (timers s)). lia.
  - apply protocol_settle. apply H.
  - refine (proj1 (advance_rel (protocol i) (fun _ => True) _ _ dt s (H i))).
    + intros s0 z H0. exact H0.
    + intros s0 t H0 Hin. split; [apply protocol_fire; assumption|].
      apply emits_one with (e := EvRequest (sid (t_task t)) (next_promise s0));
        auto.
Qed.

Lemma protocol_run (acts : list Act) (i : nat) :
  protocol i (run fn delay acts init).
Proof.
  assert (H : forall (acts : list Act) (s : St),
             wf s ->
             Forall (fun e => ev_sid e < next_session s) (trace s) ->
             (forall i, protocol i s) ->
             forall i, protocol i (run fn delay acts s)).
  { clear. induction acts as [|a acts IH]; intros s W F H i; [apply H|].
    cbn [run]. apply IH.
    - apply wf_step; exact W.
    - apply (run_sids [a] s W F).
    - apply protocol_step; assumption. }
  apply H; [apply wf_init | constructor|].
  intros k. unfold protocol, count_ev, in_flight, scheduled. simpl. lia.
Qed.

(** X1.  In every schedule and for every session: the consumer has been called
    at most as often as requests were issued, a request is only issued
    once every earlier one has had its result delivered, and timers are
    set at most as often as results were delivered. *)
Theorem requests_and_results_alternate (acts : list Act) (i : nat) :
  let tr := trace (run fn delay acts init) in
  count_ev is_result i tr <= count_ev is_request i tr /\
  count_ev is_request i tr <= count_ev is_result i tr + 1 /\
  count_ev is_timeout i tr <= count_ev is_result i tr /\
  count_ev is_request i tr <= count_ev is_timeout i tr + 1.
Proof.
  destruct (protocol_run acts i) as (A & B & C). simpl. lia.
Qed.

(** ** The delay between a result and the next request *)

Lemma wait_run (t : Timer) (dts : list Z) :
  forall s : St,
    timers s = [t] ->
    (now s + elapsed dts < t_due t)%Z ->
    run fn delay (map (@Advance R T Err) dts) s
    = with_now (now s + elapsed dts) s.
Proof.
  induction dts as [|dt dts IH]; intros s Ht Hlt; simpl in *.
  - rewrite Z.add_0_r. destruct s; reflexivity.
  - assert (Hdts : (0 <= elapsed dts)%Z).
    { clear. induction dts; simpl; lia. }
    rewrite (advance_early dt t s Ht) by lia.
    rewrite IH; simpl; [|exact Ht | lia].
    unfold with_now. simpl. rewrite Z.add_assoc. reflexivity.
Qed.

(** X2.  For a delay within the range of the host's timers (1 ms to
    2^31 - 1 ms): after a result is delivered on a poller with no other
    timer pending, the next request is issued when the delay has elapsed
    and not before: waits that add up to less than [delay] show nothing,
    and the wait that completes the delay shows the request. *)
Theorem next_request_waits_for_delay (s : St) (pid : nat) (a : Await) (r : R)
  (dts : list Z) (dt : Z) :
  timers s = [] ->
  find (fun b => a_pid b =? pid) (awaiting s) = Some a ->
  stop s = false ->
  onResult (handlers (a_task a)) r = Normal tt ->
  (1 <= delay <= 2147483647)%Z ->
  (elapsed dts < delay)%Z ->
  (delay <= elapsed dts + Z.max 0 dt)%Z ->
  emitted fn delay (Settle pid (Fulfilled r) :: map (@Advance R T Err) dts) s
  = [EvResult (sid (a_task a)) r; EvSetTimeout (sid (a_task a)) (next_timer s)]
  /\
  emitted fn delay
    (Settle pid (Fulfilled r) :: map (@Advance R T Err) dts ++ [Advance dt]) s
  = [EvResult (sid (a_task a)) r; EvSetTimeout (sid (a_task a)) (next_timer s);
     EvRequest (sid (a_task a)) (next_promise s)].
Proof.
  intros Hts Hf Hs Hk _ Hlt Hge.
  assert (Hdts : (0 <= elapsed dts)%Z).
  { clear. induction dts; simpl; lia. }
  destruct (settle_fulfilled_live s pid a r Hf Hs) as (Htr & Htm).
  destruct (Htm Hk) as (Htimers & _). rewrite Hts in Htimers. simpl in Htimers.
  rewrite Hk in Htr.
  set (t := {| t_id := next_timer s; t_due := now s + Z.max 0 delay;
               t_task := a_task a |}) in *.
  set (s1 := settle delay pid (Fulfilled r) s) in *.
  assert (Hnow : now s1 = now s).
  { unfold s1. rewrite (settle_found pid (Fulfilled r) s a Hf).
    unfold poll_resume. simpl. rewrite Hs, Hk. reflexivity. }
  assert (Hnp : next_promise s1 = next_promise s).
  { unfold s1. rewrite (settle_found pid (Fulfilled r) s a Hf).
    unfold poll_resume. simpl. rewrite Hs, Hk. reflexivity. }
  assert (Hwait : run fn delay (map (@Advance R T Err) dts) s1
                  = with_now (now s1 + elapsed dts) s1).
  { apply (wait_run t dts s1 Htimers). rewrite Hnow. simpl. lia. }
  split.
  - unfold emitted. cbn [run step]. fold s1. rewrite Hwait. simpl.
    rewrite Htr. apply skipn_app_exact.
  - unfold emitted. cbn [run step]. fold s1. rewrite run_app, Hwait.
    cbn [run step].
    rewrite (advance_late dt t)
      by (simpl; first [exact Htimers | rewrite Hnow; lia]).
    simpl. rewrite Htr, Hnp, <- app_assoc. apply skipn_app_exact.
Qed.

(** ** When a poller can be started again *)

(** X3.  On a poller whose sessions have not overlapped, after a [stop]
    invoked while no callback of the poller is running there is no timer
    and at most the one request that was in flight; as soon as that
    request has settled, whatever its outcome, nothing is pending, so that
    a new [start] opens a session that overlaps no other. *)
Theorem idle_once_stopped_and_settled (ms : list (@Move R T Err)) (i : nat) :
  orderly fn delay ms init ->
  i < next_session (play fn delay ms init) ->
  let s1 := play fn delay (ms ++ [Plain (Stop i)]) init in
  timers s1 = [] /\ length (awaiting s1) <= 1 /\
  (forall pid a o params,
      find (fun b => a_pid b =? pid) (awaiting s1) = Some a ->
      quiescent (move fn delay (Plain (Settle pid o)) s1) /\
      orderly fn delay
        (ms ++ [Plain (Stop i); Plain (Settle pid o); Plain (Start params)])
        init).
Proof.
  intros Hord Hi s1.
  destruct (host_stop_core ms i Hord Hi) as (Ht & Hs & _ & Hlen1 & _).
  fold s1 in Ht, Hs, Hlen1.
  split; [exact Ht|]. split; [exact Hlen1|].
  intros pid a o params Hf.
  assert (Hq : quiescent (move fn delay (Plain (Settle pid o)) s1)).
  { destruct (find_some _ _ Hf) as [Hin Hp]. apply Nat.eqb_eq in Hp.
    assert (Hnil : filter (fun b => negb (a_pid b =? pid)) (awaiting s1) = []).
    { apply (filter_drop_nil _ _ _ a Hin); [|exact Hlen1].
      rewrite Hp, Nat.eqb_refl. reflexivity. }
    cbn [move step]. rewrite (settle_found pid o s1 a Hf).
    unfold poll_resume. destruct o as [r|e]; simpl.
    - rewrite Hs. split; simpl; assumption.
    - split; simpl; assumption. }
  split; [exact Hq|].
  unfold orderly. apply abiding_app. split; [exact Hord|].
  simpl. split; [intros H; discriminate H|].
  split; [intros H; discriminate H|].
  split; [|exact I]. intros _.
  unfold s1 in Hq. rewrite play_app in Hq. exact Hq.
Qed.

(** ** The poller has no failure of its own *)

Lemma no_rejection_guarded (acts : list Act) (s : St) :
  no_rejection acts = true ->
  guarded fn delay (fun a _ => is_rejection a = false) acts s.
Proof.
  revert s. induction acts as [|a acts IH]; simpl; auto.
  intros s H. apply andb_true_iff in H. destruct H as [Ha H].
  split; [destruct (is_rejection a); simpl in *; congruence | auto].
Qed.

Lemma calm_step (a : Act) (s : St) :
  (forall params h r, fn params = Normal h -> onResult h r = Normal tt) ->
  is_rejection a = false -> calm s ->
  calm (step fn delay a s) /\
  emits (fun e => is_unhandled e = false) s (step fn delay a s).
Proof.
  intros Hfn Ha [Caw Cts]. destruct a as [params|j|pid o|dt]; simpl.
  - unfold start. destruct (fn params) as [h|e] eqn:E; simpl.
    + split.
      * split; simpl; [|exact Cts].
        intros a r Hin. apply in_app_or in Hin. destruct Hin as [Hin|[<-|[]]].
        -- apply Caw; exact Hin.
        -- simpl. apply (Hfn params h r E).
      * apply emits_one with (e := EvRequest (next_session s) (next_promise s));
          auto.
    + split; [split; assumption | apply emits_refl].
  - destruct (j <? next_session s); [|split; [split; assumption | apply emits_refl]].
    split.
    + destruct (timer s) as [id|]; simpl; split; simpl; auto.
      intros t r Hin. apply filter_In in Hin. apply Cts. tauto.
    + apply emits_same. destruct (timer s); reflexivity.
  - apply (settle_rel calm); [|split; assumption].
    intros a Hin Hpid s1.
    assert (C1 : calm s1).
    { split; simpl; [|exact Cts].
      intros b r Hb. apply filter_In in Hb. apply Caw. tauto. }
    unfold poll_resume. destruct o as [r|e]; [|discriminate Ha].
    unfold s1 at 1 3. simpl.
    destruct (stop s); [split; [exact C1 | apply emits_same; reflexivity]|].
    rewrite (Caw a r Hin). simpl. split.
    + destruct C1 as [C1a C1t]. split; simpl.
      * exact C1a.
      * intros t r' Ht. apply in_app_or in Ht. destruct Ht as [Ht|[<-|[]]].
        -- apply Cts; exact Ht.
        -- simpl. apply Caw; exact Hin.
    + exists [EvResult (sid (a_task a)) r;
              EvSetTimeout (sid (a_task a)) (next_timer s)].
      simpl. rewrite <- app_assoc. auto.
  - apply (advance_rel calm); [intros s0 z H; exact H | | split; assumption].
    clear - fn. intros s t [Caw Cts] Hin. split.
    + split; simpl.
      * intros a r Ha. apply in_app_or in Ha. destruct Ha as [Ha|[<-|[]]].
        -- apply Caw; exact Ha.
        -- simpl. apply Cts; exact Hin.
      * intros u r Hu. apply filter_In in Hu. apply Cts. tauto.
    + apply emits_one with (e := EvRequest (sid (t_task t)) (next_promise s));
        auto.
Qed.

(** X4.  A poller whose factory gives consumers that return normally, and whose
    requests never reject, never produces an unhandled rejection, whatever
    the schedule: the request and the consumer are the only sources of
    failure. *)
Theorem no_failure_of_its_own (acts : list Act) :
  (forall params h r, fn params = Normal h -> onResult h r = Normal tt) ->
  no_rejection acts = true ->
  Forall (fun e => is_unhandled e = false) (trace (run fn delay acts init)).
Proof.
  intros Hfn Hn.
  assert (C0 : calm (@init R Err)) by (split; simpl; tauto).
  destruct (run_guarded (fun a _ => is_rejection a = false) calm
              (fun e => is_unhandled e = false)
              (fun a s Ha C => calm_step a s Hfn Ha C)
              acts init (no_rejection_guarded acts init Hn) C0)
    as (_ & evs & Ht & F).
  rewrite Ht. exact F.
Qed.

End Facts.

(** * The claims on concrete pollers *)

Lemma results_delivered_in_order_witness :
  trace (run fn_log 100
           (Start [] :: iterations 100 0 [(5%Z, 1); (7%Z, 2); (0%Z, 3)]) init)
  = EvRequest 0 0 :: iteration_events 0 1 0 [1; 2; 3] /\
  deliveries 0
    (trace (run fn_log 100
              (Start [] :: iterations 100 0 [(5%Z, 1); (7%Z, 2); (0%Z, 3)]
                 ++ Stop 0 :: [Settle 3 (Fulfilled 4); Advance 500]) init))
  = [1; 2; 3].
Proof.
  apply (results_delivered_in_order fn_log 100 [] h_log
           [(5%Z, 1); (7%Z, 2); (0%Z, 3)]
           [Settle 3 (Fulfilled 4); Advance 500]);
    [lia | reflexivity | intros; reflexivity | reflexivity].
Defined.

(** C2 as stated fails: session 0 is stopped with its request in flight,
    [start] is called again, and the request then fulfils: the consumer of
    session 0 is called and its timer is set. *)
Lemma stopped_session_still_delivers :
  ~ (forall (acts post : list (@Action nat nat nat)) (i : nat),
        i < next_session (run fn_log 100 acts init) ->
        Forall (fun e => ev_sid e = i ->
                         is_result e = false /\ is_timeout e = false)
               (emitted fn_log 100 post
                  (run fn_log 100 (acts ++ [Stop i]) init))).
Proof.
  intros H.
  assert (Hi : 0 < next_session (run fn_log 100 [Start []] init))
    by (vm_compute; lia).
  pose proof (H [Start []] [Start []; Settle 0 (Fulfilled 7)] 0 Hi) as F.
  vm_compute in F.
  inversion F as [|e1 l1 _ F1]. inversion F1 as [|e2 l2 H2 _].
  destruct (H2 eq_refl) as [Hres _]. discriminate Hres.
Qed.

Lemma stop_silences_until_restart_witness :
  Forall (fun e => is_result e = false /\ is_timeout e = false)
         (shown fn_log 100 [Calling 0 7 [CallStart []]; Plain (Advance 300)]
            (move fn_log 100 (Plain (Stop 0))
               (play fn_log 100 [Plain (Start [])] init))).
Proof.
  apply (stop_silences_until_restart fn_log 100 [Plain (Start [])]
           [Calling 0 7 [CallStart []]; Plain (Advance 300)] 0);
    [vm_compute; lia | reflexivity].
Defined.



Lemma one_stop_flag_for_all_sessions_witness :
  emitted fn_log 100 [Stop 0; Settle 1 (Fulfilled 7)]
    (run fn_log 100 [Start []; Start []] init) = [] /\
  emitted fn_log 100 [Settle 1 (Fulfilled 7)]
    (run fn_log 100 [Start []; Start []] init)
  = [EvResult 1 7; EvSetTimeout 1 0].
Proof.
  destruct (one_stop_flag_for_all_sessions fn_log 100
              (run fn_log 100 [Start []; Start []] init) 0 1
              {| a_pid := 1; a_task := {| sid := 1; handlers := h_log |} |} 7)
    as (_ & _ & _ & H & _); [vm_compute; lia | reflexivity |].
  split; [exact H | reflexivity].
Defined.

Lemma request_failure_ends_session_witness :
  let s := run fn_log 100 [Start []; Settle 0 (Fulfilled 1); Advance 100]
             init in
  emitted fn_log 100 [Settle 1 (Rejected 42)] s = [EvUnhandled 0 42] /\
  Forall (fun ev => ev_sid ev <> 0)
         (emitted fn_log 100 [Advance 100; Stop 0; Start []; Advance 100]
            (step fn_log 100 (Settle 1 (Rejected 42)) s)).
Proof.
  destruct (request_failure_ends_session fn_log 100
              [Start []; Settle 0 (Fulfilled 1); Advance 100]
              [Advance 100; Stop 0; Start []; Advance 100] 1
              {| a_pid := 1; a_task := {| sid := 0; handlers := h_log |} |} 42)
    as (H1 & _ & _ & H2 & _); [reflexivity|].
  split; [exact H1 | exact H2].
Defined.


Lemma restart_resurrects_stopped_session_witness :
  emitted fn_log 100 [Stop 0; Start []; Settle 0 (Fulfilled 7)]
    (run fn_log 100 [Start []] init)
  = [EvRequest 1 1; EvResult 0 7; EvSetTimeout 0 0] /\
  emitted fn_log 100 [Stop 0; Settle 0 (Fulfilled 7)]
    (run fn_log 100 [Start []] init) = [].
Proof.
  destruct (restart_resurrects_stopped_session fn_log 100
              (run fn_log 100 [Start []] init) 0 0
              {| a_pid := 0; a_task := {| sid := 0; handlers := h_log |} |}
              [] h_log 7)
    as (_ & H1 & _ & H2); [vm_compute; lia | reflexivity | reflexivity |].
  split; [exact H1 | exact H2].
Defined.

Lemma consumer_failure_ends_session_witness :
  let s := run fn_picky 100 [Start []] init in
  emitted fn_picky 100 [Settle 0 (Fulfilled 0)] s
  = [EvResult 0 0; EvUnhandled 0 13] /\
  Forall (fun ev => ev_sid ev <> 0)
         (emitted fn_picky 100 [Advance 100; Start []; Advance 100]
            (step fn_picky 100 (Settle 0 (Fulfilled 0)) s)).
Proof.
  destruct (consumer_failure_ends_session fn_picky 100 [Start []]
              [Advance 100; Start []; Advance 100] 0
              {| a_pid := 0; a_task := {| sid := 0; handlers := h_picky |} |} 0)
    as (_ & H); [reflexivity | reflexivity |].
  destruct (H 13 eq_refl) as (H1 & _ & _ & H2).
  split; [exact H1 | exact H2].
Defined.

(** * Properties of the block number watcher *)

Lemma has_In (cb : Listener) (l : list Listener) :
  has cb l = true <-> In cb l.
Proof.
  unfold has. rewrite existsb_exists. split.
  - intros (x & Hin & E). apply Nat.eqb_eq in E. subst. exact Hin.
  - intros Hin. exists cb. split; [exact Hin | apply Nat.eqb_refl].
Qed.

Lemma has_snoc (cb : Listener) (l : list Listener) : has cb (l ++ [cb]) = true.
Proof. apply has_In. apply in_or_app. right. left. reflexivity. Qed.

Lemma same_eq (a b : BlockNumber) : same a b = true <-> a = b.
Proof.
  destruct a as [x|], b as [y|]; simpl; split; try congruence; auto.
  - intros E. apply String.eqb_eq in E. congruence.
  - intros [= ->]. apply String.eqb_refl.
Qed.

Lemma same_refl (a : BlockNumber) : same a a = true.
Proof. apply same_eq. reflexivity. Qed.

Lemma calls_to_app (cb : Listener) (cs1 cs2 : list (Listener * BlockNumber)) :
  calls_to cb (cs1 ++ cs2) = calls_to cb cs1 ++ calls_to cb cs2.
Proof. unfold calls_to. rewrite filter_app, map_app. reflexivity. Qed.

Lemma calls_to_absent (cb : Listener) (v : BlockNumber) (l : list Listener) :
  ~ In cb l -> calls_to cb (map (fun c => (c, v)) l) = [].
Proof.
  induction l as [|c l IH]; simpl; intros Hn; [reflexivity|].
  unfold calls_to in *. simpl.
  destruct (c =? cb) eqn:E; [apply Nat.eqb_eq in E; tauto|].
  apply IH. tauto.
Qed.

Lemma calls_to_present (cb : Listener) (v : BlockNumber) (l : list Listener) :
  NoDup l -> In cb l -> calls_to cb (map (fun c => (c, v)) l) = [v].
Proof.
  induction 1 as [|c l Hc Hnd IH]; simpl; intros Hin; [tauto|].
  unfold calls_to in *. simpl. destruct (c =? cb) eqn:E.
  - apply Nat.eqb_eq in E. subst c. simpl. f_equal.
    apply (calls_to_absent cb v l Hc).
  - apply IH. destruct Hin as [->|Hin]; [|exact Hin].
    rewrite Nat.eqb_refl in E. discriminate.
Qed.

(** The set of listeners holds each listener once. *)
Lemma listeners_nodup_step (op : WatchOp) (w : Watch) :
  NoDup (blockNumberListeners w) ->
  NoDup (blockNumberListeners (watch_step op w)).
Proof.
  intros Hnd. destruct op as [cb|cb|v]; simpl.
  - unfold addBlockNumberListener.
    destruct (has cb (blockNumberListeners w)) eqn:E; [exact Hnd|]. simpl.
    apply NoDup_app; [exact Hnd | constructor; [simpl; tauto | constructor] |].
    intros x Hx [<-|[]]. apply has_In in Hx. congruence.
  - apply NoDup_filter. exact Hnd.
  - unfold updateBlockNumber.
    destruct (same (lastBlockNumber w) v); [exact Hnd | exact Hnd].
Qed.

Lemma listeners_nodup (ops : list WatchOp) (w : Watch) :
  NoDup (blockNumberListeners w) ->
  NoDup (blockNumberListeners (watch_run ops w)).
Proof.
  revert w. induction ops as [|op ops IH]; simpl; auto.
  intros w Hnd. apply IH. apply listeners_nodup_step. exact Hnd.
Qed.

(** X5.  Subscribing twice is subscribing once: the listener is registered once
    and told the current block number once. *)
Theorem subscribe_twice_is_once (cb : Listener) (w : Watch) :
  addBlockNumberListener cb (addBlockNumberListener cb w)
  = addBlockNumberListener cb w /\
  has cb (blockNumberListeners (addBlockNumberListener cb w)) = true /\
  calls_to cb (calls (addBlockNumberListener cb w))
  = calls_to cb (calls w)
      ++ (if has cb (blockNumberListeners w) then []
          else [lastBlockNumber w]).
Proof.
  unfold addBlockNumberListener.
  destruct (has cb (blockNumberListeners w)) eqn:E.
  - rewrite E. split; [reflexivity|].
    split; [reflexivity | rewrite app_nil_r; reflexivity].
  - simpl. rewrite has_snoc. split; [reflexivity|]. split; [reflexivity|].
    rewrite calls_to_app. unfold calls_to at 2. simpl.
    rewrite Nat.eqb_refl. reflexivity.
Qed.

(** X6.  In every state the watcher can reach, a block number equal to the
    current one is dropped, and a new one is passed to every registered
    listener exactly once and to nobody else; updating twice with the same
    value is updating once. *)
Theorem update_tells_each_listener_once (ops : list WatchOp) (v : BlockNumber)
  (cb : Listener) :
  let w := watch_run ops watch0 in
  (lastBlockNumber w = v -> updateBlockNumber v w = w) /\
  (lastBlockNumber w <> v ->
   lastBlockNumber (updateBlockNumber v w) = v /\
   blockNumberListeners (updateBlockNumber v w) = blockNumberListeners w /\
   calls_to cb (calls (updateBlockNumber v w))
   = calls_to cb (calls w)
       ++ (if has cb (blockNumberListeners w) then [v] else [])) /\
  updateBlockNumber v (updateBlockNumber v w) = updateBlockNumber v w.
Proof.
  intros w.
  assert (Hnd : NoDup (blockNumberListeners w))
    by (apply listeners_nodup; constructor).
  split; [|split].
  - intros E. unfold updateBlockNumber.
    apply same_eq in E. rewrite E. reflexivity.
  - intros Hne. unfold updateBlockNumber.
    destruct (same (lastBlockNumber w) v) eqn:E;
      [apply same_eq in E; contradiction|].
    simpl. repeat split. rewrite calls_to_app. f_equal.
    destruct (has cb (blockNumberListeners w)) eqn:Eh.
    + apply calls_to_present; [exact Hnd | apply has_In; exact Eh].
    + apply calls_to_absent. intros Hin. apply has_In in Hin. congruence.
  - unfold updateBlockNumber.
    destruct (same (lastBlockNumber w) v) eqn:E; [rewrite E; reflexivity|].
    simpl. rewrite same_refl. reflexivity.
Qed.

(** X7.  Every registered listener is in step: the last thing it was told is
    the current block number. *)
Theorem listeners_know_current_block (ops : list WatchOp) (cb : Listener) :
  let w := watch_run ops watch0 in
  has cb (blockNumberListeners w) = true ->
  exists vs, calls_to cb (calls w) = vs ++ [lastBlockNumber w].
Proof.
  assert (H : forall (ops : list WatchOp) (w : Watch),
             NoDup (blockNumberListeners w) ->
             (forall c, In c (blockNumberListeners w) ->
                        exists vs, calls_to c (calls w)
                                   = vs ++ [lastBlockNumber w]) ->
             forall c, In c (blockNumberListeners (watch_run ops w)) ->
                       exists vs, calls_to c (calls (watch_run ops w))
                                  = vs ++ [lastBlockNumber (watch_run ops w)]).
  { clear. induction ops as [|op ops IH]; intros w Hnd Hw; [exact Hw|].
    cbn [watch_run]. apply IH; [apply listeners_nodup_step; exact Hnd|].
    intros c Hc. destruct op as [cb|cb|v]; simpl in *.
    - unfold addBlockNumberListener in *.
      destruct (has cb (blockNumberListeners w)) eqn:E; [apply Hw; exact Hc|].
      simpl in *. rewrite calls_to_app. unfold calls_to at 2. simpl.
      destruct (cb =? c) eqn:Ec.
      + simpl. eexists. reflexivity.
      + simpl. rewrite app_nil_r. apply Hw.
        apply in_app_or in Hc. destruct Hc as [Hc|[->|[]]]; [exact Hc|].
        rewrite Nat.eqb_refl in Ec. discriminate.
    - apply Hw. apply filter_In in Hc. tauto.
    - unfold updateBlockNumber in *.
      destruct (same (lastBlockNumber w) v); [apply Hw; exact Hc|].
      simpl in *. rewrite calls_to_app, (calls_to_present c v _ Hnd Hc).
      eexists. reflexivity. }
  intros w Hin. apply has_In in Hin.
  apply (H ops watch0); [constructor | simpl; tauto | exact Hin].
Qed.

Lemma unsubscribed_step (cb : Listener) (op : WatchOp) (w : Watch) :
  is_add cb op = false ->
  ~ In cb (blockNumberListeners w) ->
  ~ In cb (blockNumberListeners (watch_step op w)) /\
  calls_to cb (calls (watch_step op w)) = calls_to cb (calls w).
Proof.
  intros Hop Hn. destruct op as [c|c|v]; simpl in *.
  - unfold addBlockNumberListener.
    destruct (has c (blockNumberListeners w)); [split; auto|]. simpl. split.
    + intros Hin. apply in_app_or in Hin. destruct Hin as [Hin|[->|[]]];
        [tauto|]. rewrite Nat.eqb_refl in Hop. discriminate.
    + rewrite calls_to_app. unfold calls_to at 2. simpl. rewrite Hop.
      apply app_nil_r.
  - split; [|reflexivity]. intros Hin. apply filter_In in Hin. tauto.
  - unfold updateBlockNumber.
    destruct (same (lastBlockNumber w) v); [split; auto|]. simpl.
    split; [exact Hn|].
    rewrite calls_to_app, (calls_to_absent cb v _ Hn). apply app_nil_r.
Qed.

(** X8.  Unsubscribing works: once a listener is removed it is not called
    again, whatever block numbers arrive and whoever else subscribes, for
    as long as it is not added again. *)
Theorem unsubscribed_listener_is_not_called (cb : Listener)
  (ops : list WatchOp) (w : Watch) :
  forallb (fun op => negb (is_add cb op)) ops = true ->
  has cb (blockNumberListeners
            (watch_run ops (removeBlockNumberListener cb w))) = false /\
  calls_to cb (calls (watch_run ops (removeBlockNumberListener cb w)))
  = calls_to cb (calls w).
Proof.
  intros Hops.
  assert (H : forall (ops : list WatchOp) (w1 : Watch),
             forallb (fun op => negb (is_add cb op)) ops = true ->
             ~ In cb (blockNumberListeners w1) ->
             ~ In cb (blockNumberListeners (watch_run ops w1)) /\
             calls_to cb (calls (watch_run ops w1)) = calls_to cb (calls w1)).
  { clear. induction ops as [|op ops IH]; intros w1 Hops Hn; [split; auto|].
    simpl in Hops. apply andb_true_iff in Hops. destruct Hops as [Hop Hops].
    apply negb_true_iff in Hop.
    destruct (unsubscribed_step cb op w1 Hop Hn) as [Hn' Hc].
    cbn [watch_run]. destruct (IH _ Hops Hn') as [Hn'' Hc'].
    split; [exact Hn'' | rewrite Hc', Hc; reflexivity]. }
  assert (Hn : ~ In cb (blockNumberListeners (removeBlockNumberListener cb w))).
  { simpl. intros Hin. apply filter_In in Hin. destruct Hin as [_ Hin].
    rewrite Nat.eqb_refl in Hin. discriminate. }
  destruct (H ops _ Hops Hn) as [Hn' Hc]. split; [|exact Hc].
  destruct (has cb _) eqn:E; [|reflexivity].
  apply has_In in E. contradiction.
Qed.

(** The current block number is the value of the last update; subscribing
    and unsubscribing never change it. *)
Lemma current_block_is_last_update (ops : list WatchOp) (w : Watch) :
  lastBlockNumber (watch_run ops w) = last_update ops (lastBlockNumber w).
Proof.
  revert w. induction ops as [|op ops IH]; intros w; [reflexivity|].
  cbn [watch_run]. rewrite IH. destruct op as [cb|cb|v]; simpl.
  - unfold addBlockNumberListener.
    destruct (has cb (blockNumberListeners w)); reflexivity.
  - reflexivity.
  - unfold updateBlockNumber.
    destruct (same (lastBlockNumber w) v) eqn:E; [|reflexivity].
    apply same_eq in E. rewrite E. reflexivity.
Qed.

(** * Properties of the polling effect of the watcher *)

Section EffectFacts.

Context {Num Err Api : Type}.
Variable bigint_string : Num -> completion Err String.string.
Variable pollBlockNumberInterval : Z.

Local Abbreviation BR := (@BlockResult Num).
Local Abbreviation factory := (block_factory bigint_string).
Local Abbreviation interval := pollBlockNumberInterval.
Local Abbreviation PAct := (@Action BR unit Err).
Local Abbreviation PEv := (@Event BR Err).
Local Abbreviation PSt := (@State BR Err).
Local Abbreviation Eff := (@Effect Num Err).
Local Abbreviation EAct := (@EffectAction Num Err).
Local Abbreviation mounted0 := (mounted bigint_string interval).

Lemma to_action_no_start (acts : list EAct) :
  no_start (map to_action acts) = true.
Proof.
  induction acts as [|a acts IH]; [reflexivity|]. simpl. rewrite IH.
  destruct a; reflexivity.
Qed.

Lemma effect_run_poller (acts : list EAct) (ew : Eff * Watch) :
  poller (fst (effect_run bigint_string interval acts ew))
  = run factory interval (map to_action acts) (poller (fst ew)).
Proof.
  revert ew. induction acts as [|a acts IH]; intros ew; [reflexivity|].
  cbn [effect_run map run]. rewrite IH. reflexivity.
Qed.

Lemma results_of_app (evs1 evs2 : list PEv) :
  results_of (evs1 ++ evs2) = results_of evs1 ++ results_of evs2.
Proof.
  induction evs1 as [|e evs1 IH]; simpl; [reflexivity|].
  destruct e; simpl; rewrite ?IH; reflexivity.
Qed.

Lemma results_of_none (evs : list PEv) :
  Forall (fun e => is_result e = false) evs -> results_of evs = [].
Proof.
  induction 1 as [|e evs He _ IH]; simpl; auto.
  destruct e; simpl in *; auto; discriminate.
Qed.

Lemma results_of_iteration_events (i pid tid : nat) (rs : list BR) :
  results_of (iteration_events (Err := Err) i pid tid rs) = rs.
Proof.
  revert pid tid. induction rs as [|r rs IH]; intros pid tid; simpl; auto.
  rewrite IH. reflexivity.
Qed.

Lemma to_action_iterations (pid : nat) (lrs : list (Z * BR)) :
  map to_action (effect_iterations (Err := Err) interval pid lrs)
  = iterations interval pid lrs.
Proof.
  revert pid. induction lrs as [|[l r] lrs IH]; intros pid; simpl; auto.
  rewrite IH. reflexivity.
Qed.

(** While the cleanup has not run, the watcher is updated with exactly the
    results the poller delivers, in order. *)
Lemma effect_live_watch (acts : list EAct) :
  forall ew : Eff * Watch,
    cancel (fst ew) = false ->
    forallb (fun a => negb (is_cleanup a)) acts = true ->
    cancel (fst (effect_run bigint_string interval acts ew)) = false /\
    snd (effect_run bigint_string interval acts ew)
    = fold_left (fun w r => onResult_block bigint_string false r w)
        (results_of
           (emitted factory interval (map to_action acts) (poller (fst ew))))
        (snd ew).
Proof.
  induction acts as [|a acts IH]; intros ew Hc Hn.
  - split; [exact Hc|]. unfold emitted. simpl. rewrite skipn_all. reflexivity.
  - simpl in Hn. apply andb_true_iff in Hn. destruct Hn as [Ha Hn].
    cbn [effect_run map].
    assert (Hc' : cancel (fst (effect_step bigint_string interval a ew)) = false)
      by (destruct a; simpl in *; [exact Hc | exact Hc | discriminate]).
    destruct (IH _ Hc' Hn) as [H1 H2]. split; [exact H1|].
    rewrite H2, (emitted_cons factory interval (to_action a)),
      results_of_app, fold_left_app.
    simpl. rewrite Hc. reflexivity.
Qed.

Lemma next_session_mono (acts : list PAct) (s : PSt) :
  wf s -> next_session s <= next_session (run factory interval acts s).
Proof.
  revert s. induction acts as [|a acts IH]; intros s W; [apply Nat.le_refl|].
  cbn [run]. destruct (step_sids factory interval a s W) as [Hle _].
  specialize (IH _ (wf_step factory interval a s W)). lia.
Qed.

Lemma effect_actions_sequential (acts : list EAct)
  (s : PSt) :
  sequential factory interval (map to_action acts) s.
Proof.
  revert s. induction acts as [|a acts IH]; intros s; [exact I|].
  split; [destruct a; intros H; discriminate H | apply IH].
Qed.

Lemma mounted_sequential (acts : list EAct) :
  sequential factory interval (Start [] :: map to_action acts) init.
Proof.
  split; [intros _; split; reflexivity | apply effect_actions_sequential].
Qed.

(** The consumer never runs with [cancel] set: once the cleanup has set it,
    the poller is stopped. *)
Lemma cancelled_is_stopped (acts : list EAct) (w : Watch) :
  let e := fst (effect_run bigint_string interval acts (mounted0, w)) in
  cancel e = true -> stop (poller e) = true.
Proof.
  assert (H : forall (acts : list EAct) (ew : Eff * Watch),
             wf (poller (fst ew)) -> 0 < next_session (poller (fst ew)) ->
             (cancel (fst ew) = true -> stop (poller (fst ew)) = true) ->
             cancel (fst (effect_run bigint_string interval acts ew)) = true ->
             stop (poller (fst (effect_run bigint_string interval acts ew)))
             = true).
  { clear. induction acts as [|a acts IH]; intros ew W Hn Hi; [exact Hi|].
    cbn [effect_run]. apply IH.
    - apply wf_step. exact W.
    - destruct (step_sids factory interval (to_action a) _ W) as [Hle _].
      unfold effect_step. cbn [fst poller]. lia.
    - unfold effect_step. cbn [fst poller cancel].
      destruct a as [pid o|dt|]; cbn [to_action].
      + intros Hc. apply (stopped_step factory interval (Settle pid o));
          [reflexivity | exact (Hi Hc)].
      + intros Hc. apply (stopped_step factory interval (Advance dt));
          [reflexivity | exact (Hi Hc)].
      + intros _. cbn [step]. apply Nat.ltb_lt in Hn. rewrite Hn.
        unfold stop_closure. cbn [snd].
        destruct (timer (poller (fst ew))); reflexivity. }
  intros e. apply H.
  - exact (wf_step factory interval (Start []) init wf_init).
  - cbn. lia.
  - discriminate.
Qed.

(** The poller of an effect that has been cleaned up is stopped and has no
    timer pending. *)
Lemma cleaned_up (acts : list EAct) (w : Watch) :
  let p := poller (fst (effect_run bigint_string interval (acts ++ [Cleanup])
                          (mounted0, w))) in
  stop p = true /\ timers p = [].
Proof.
  intros p.
  assert (E : p = run factory interval
                    ((Start [] :: map to_action acts) ++ [Stop 0]) init).
  { unfold p. rewrite effect_run_poller, map_app. reflexivity. }
  assert (Hi : 0 < next_session
                     (run factory interval (Start [] :: map to_action acts)
                        init)).
  { cbn [run].
    pose proof (next_session_mono (map to_action acts)
                  (step factory interval (Start []) init)
                  (wf_step factory interval _ _ wf_init)) as H.
    simpl in H. simpl. lia. }
  destruct (stop_cancels_timer_core factory interval _ 0
              (mounted_sequential acts) Hi) as [Ht Hs].
  rewrite E. split; assumption.
Qed.

(** X9.  Once the cleanup of an effect has run, that effect is over: whatever
    its late requests and timers do, and whatever components and later
    effects do to the watcher meanwhile, the watcher changes by their
    operations alone, and the effect's poller issues no request, delivers
    no result and sets no timer. *)
Theorem cleanup_ends_polling (acts : list EAct) (xs : list (@SysAction Num Err))
  (w w' : Watch) :
  let e1 := fst (effect_run bigint_string interval (acts ++ [Cleanup])
                   (mounted0, w)) in
  cancel e1 = true /\
  snd (sys_run bigint_string interval xs (e1, w')) = watch_run (ops_of xs) w' /\
  Forall (fun ev => is_request ev = false /\ is_result ev = false /\
                    is_timeout ev = false)
         (emitted factory interval (map to_action (actions_of xs)) (poller e1)).
Proof.
  intros e1. destruct (cleaned_up acts w) as [Hs Ht]. fold e1 in Hs, Ht.
  split; [|split].
  - unfold e1. clear. generalize (mounted0, w).
    induction acts as [|a acts IH]; intros ew; [reflexivity|].
    cbn [app effect_run]. apply IH.
  - assert (H : forall (xs : list (@SysAction Num Err)) (e : Eff) (w1 : Watch),
               stop (poller e) = true -> timers (poller e) = [] ->
               snd (sys_run bigint_string interval xs (e, w1))
               = watch_run (ops_of xs) w1).
    { clear. induction xs as [|x xs IH]; intros e w1 Hs Ht; [reflexivity|].
      cbn [sys_run]. destruct x as [a|op].
      - cbn [ops_of sys_step].
        assert (Ha : is_start (to_action a) = false) by (destruct a; reflexivity).
        destruct (quiet_step factory interval (to_action a) (poller e) Ha
                    (conj Hs Ht)) as [[Hs' Ht'] He].
        assert (Hr : results_of
                       (emitted factory interval [to_action a] (poller e)) = []).
        { apply results_of_none.
          apply (emits_emitted factory interval _ [to_action a]) in He.
          eapply Forall_impl; [|exact He].
          intros [] H; simpl in *; auto; discriminate. }
        unfold effect_step. cbn [fst snd]. rewrite Hr. cbn [fold_left].
        apply IH; assumption.
      - cbn [ops_of sys_step fst snd watch_run]. apply IH; assumption. }
    apply H; assumption.
  - eapply Forall_impl;
      [|exact (quiet_run factory interval _ (poller e1) Hs Ht
                 (to_action_no_start (actions_of xs)))].
    intros [] H; simpl in *; auto; discriminate.
Qed.

(** When every conversion succeeds, the consumer's calls are so many
    updates of the watcher. *)
Lemma fold_updates (rs : list BR) (vs : list BlockNumber) (w : Watch) :
  Forall2 (fun r v => block_of bigint_string r = Normal v) rs vs ->
  fold_left (fun w r => onResult_block bigint_string false r w) rs w
  = watch_run (map Update vs) w.
Proof.
  intros F. revert w. induction F as [|r v rs vs Hr _ IH]; intros w;
    [reflexivity|].
  cbn [fold_left map watch_run watch_step]. unfold onResult_block at 2.
  rewrite Hr. apply IH.
Qed.

Lemma last_cons (A : Type) (vs : list A) (v d : A) :
  last (v :: vs) d = last vs v.
Proof.
  revert v d. induction vs as [|b vs IH]; intros v d; [reflexivity|].
  change (last (v :: b :: vs) d) with (last (b :: vs) d).
  rewrite (IH b d), (IH b v). reflexivity.
Qed.

Lemma last_update_updates (vs : list BlockNumber) (v0 : BlockNumber) :
  last_update (map Update vs) v0 = last vs v0.
Proof.
  revert v0. induction vs as [|v vs IH]; intros v0; [reflexivity|].
  cbn [map last_update]. rewrite IH, last_cons. reflexivity.
Qed.

(** An effect whose poller has nothing in flight and nothing pending leaves
    the watcher to the components. *)
Lemma idle_effect (xs : list (@SysAction Num Err)) :
  forall (e : Eff) (w1 : Watch),
    quiescent (poller e) ->
    snd (sys_run bigint_string interval xs (e, w1)) = watch_run (ops_of xs) w1.
Proof.
  induction xs as [|x xs IH]; intros e w1 Hq; [reflexivity|].
  cbn [sys_run]. destruct x as [a|op].
  - cbn [ops_of sys_step].
    assert (Ha : is_start (to_action a) = false) by (destruct a; reflexivity).
    destruct (idle_step factory interval (to_action a) (poller e) Ha Hq)
      as [Hq' Ht].
    unfold effect_step. cbn [fst snd]. unfold emitted. cbn [run].
    rewrite Ht, skipn_all. cbn [results_of fold_left].
    apply IH. exact Hq'.
  - cbn [ops_of sys_step fst snd watch_run]. apply IH; assumption.
Qed.

Lemma snd_Forall2 (A B C : Type) (P : B -> C -> Prop) (l : list (A * B))
  (vs : list C) :
  Forall2 (fun x v => P (snd x) v) l vs -> Forall2 P (map snd l) vs.
Proof.
  induction 1; simpl; constructor; auto.
Qed.

(** X10.  While an effect is mounted, its requests fulfil and the conversion
    of each result to a string succeeds, every result is passed on in
    order: the watcher ends as if [updateBlockNumber] had been called with
    each converted result ([null] for [null]), so the current block number
    is the conversion of the most recent result.  When the conversion of a
    result throws, that result leaves the watcher as it was and the poller
    has nothing more in flight or pending: from then on the watcher changes
    by the components' operations alone and the poller does nothing. *)
Theorem watcher_follows_results (lrs : list (Z * BR))
  (vs : list BlockNumber) (w : Watch) :
  Forall2 (fun lr v => block_of bigint_string (snd lr) = Normal v) lrs vs ->
  let ew := effect_run bigint_string interval
              (effect_iterations interval 0 lrs) (mounted0, w) in
  cancel (fst ew) = false /\
  snd ew = watch_run (map Update vs) w /\
  lastBlockNumber (snd ew) = last vs (lastBlockNumber w) /\
  forall (r : BR) (e : Err),
    block_of bigint_string r = Throw e ->
    let ew' := effect_step bigint_string interval
                 (Resolve (length lrs) (Fulfilled r)) ew in
    emitted factory interval [Settle (length lrs) (Fulfilled r)]
      (poller (fst ew))
    = [EvResult 0 r; EvUnhandled 0 e] /\
    snd ew' = snd ew /\
    forall xs : list (@SysAction Num Err),
      snd (sys_run bigint_string interval xs ew')
      = watch_run (ops_of xs) (snd ew) /\
      emitted factory interval (map to_action (actions_of xs))
        (poller (fst ew')) = [].
Proof.
  intros F ew.
  assert (Hn : forallb (fun a => negb (is_cleanup a))
                 (effect_iterations (Err := Err) interval 0 lrs) = true).
  { generalize 0. clear. induction lrs as [|[l r] lrs IH]; intros pid; simpl;
      auto. }
  destruct (effect_live_watch (effect_iterations interval 0 lrs)
              (mounted0, w) eq_refl Hn) as [Hc Hw].
  fold ew in Hc, Hw.
  assert (Hk : forall r, In r (map snd lrs) ->
                 onResult (block_handlers bigint_string) r = Normal tt).
  { clear - F. induction F as [|[l r] v lrs vs Hr _ IH]; intros r0 Hin;
      [destruct Hin|].
    destruct Hin as [<-|Hin]; [|exact (IH _ Hin)].
    cbn [snd] in *. unfold block_handlers. cbn [onResult]. rewrite Hr.
    reflexivity. }
  destruct (session_run factory interval init []
              (block_handlers bigint_string) lrs
              eq_refl eq_refl (Forall_nil _) Hk)
    as (tm' & nw' & Hrun).
  cbn [init next_promise next_session next_timer awaiting trace app Nat.add]
    in Hrun.
  assert (Hp : poller (fst ew)
               = run factory interval (Start [] :: iterations interval 0 lrs)
                   init).
  { unfold ew. rewrite effect_run_poller, to_action_iterations. reflexivity. }
  assert (Hem : emitted factory interval
                  (map to_action (effect_iterations interval 0 lrs))
                  (poller (fst (mounted0, w)))
                = iteration_events 0 1 0 (map snd lrs)).
  { rewrite to_action_iterations. unfold emitted. cbn [fst poller mounted].
    change (run factory interval (iterations interval 0 lrs)
              (step factory interval (Start []) init))
      with (run factory interval (Start [] :: iterations interval 0 lrs) init).
    rewrite Hrun. reflexivity. }
  rewrite Hem, results_of_iteration_events,
    (fold_updates _ vs _ (snd_Forall2 _ _ _ _ _ _ F)) in Hw.
  cbn [snd] in Hw.
  split; [exact Hc|]. split; [exact Hw|]. split.
  { rewrite Hw, current_block_is_last_update, last_update_updates.
    reflexivity. }
  intros r e Hr ew'.
  assert (Hon : onResult (block_handlers bigint_string) r = Throw e).
  { unfold block_handlers. cbn [onResult]. rewrite Hr. reflexivity. }
  assert (Hst : step factory interval (Settle (length lrs) (Fulfilled r))
                  (poller (fst ew))
                = mkState false tm' nw' [] [] (length lrs) (S (length lrs)) 1
                    ((EvRequest 0 0 :: iteration_events 0 1 0 (map snd lrs))
                       ++ [EvResult 0 r; EvUnhandled 0 e])).
  { rewrite Hp, Hrun. cbn [step]. unfold settle.
    cbn [awaiting find a_pid]. rewrite Nat.eqb_refl.
    cbn [filter a_pid]. rewrite Nat.eqb_refl. cbn [negb a_task].
    unfold poll_resume. cbn [with_awaiting stop emit sid handlers].
    rewrite Hon. unfold emit, with_awaiting. cbn -[app iteration_events]. rewrite <- app_assoc. reflexivity. }
  assert (Hev : emitted factory interval [Settle (length lrs) (Fulfilled r)]
                  (poller (fst ew))
                = [EvResult 0 r; EvUnhandled 0 e]).
  { unfold emitted. cbn [run]. rewrite Hst. rewrite Hp, Hrun. cbn [trace].
    apply skipn_app_exact. }
  assert (Hw' : snd ew' = snd ew).
  { unfold ew', effect_step. cbn [snd to_action]. rewrite Hev.
    cbn [results_of fold_left]. unfold onResult_block. rewrite Hc, Hr.
    reflexivity. }
  assert (Hq : quiescent (poller (fst ew'))).
  { unfold ew', effect_step. cbn [fst poller to_action]. rewrite Hst.
    split; reflexivity. }
  split; [exact Hev|]. split; [exact Hw'|].
  intros xs. split.
  - rewrite <- Hw'. rewrite (surjective_pairing ew') at 1.
    apply idle_effect. exact Hq.
  - apply (idle_run factory interval _ _ (to_action_no_start _) Hq).
Qed.

End EffectFacts.

(** * The further properties on concrete inputs *)

Lemma next_request_waits_for_delay_witness :
  emitted fn_log 100
    (Settle 0 (Fulfilled 7) :: map (@Advance nat nat nat) [30%Z; 60%Z])
    (run fn_log 100 [Start []] init)
  = [EvResult 0 7; EvSetTimeout 0 0] /\
  emitted fn_log 100
    (Settle 0 (Fulfilled 7) :: map (@Advance nat nat nat) [30%Z; 60%Z]
       ++ [Advance 10])
    (run fn_log 100 [Start []] init)
  = [EvResult 0 7; EvSetTimeout 0 0; EvRequest 0 1].
Proof.
  apply (next_request_waits_for_delay fn_log 100
           (run fn_log 100 [Start []] init) 0
           {| a_pid := 0; a_task := {| sid := 0; handlers := h_log |} |} 7
           [30%Z; 60%Z] 10%Z);
    first [reflexivity | lia].
Defined.

Lemma idle_once_stopped_and_settled_witness :
  quiescent
    (move fn_log 100 (Plain (Settle 1 (Rejected 9)))
       (play fn_log 100
          ([Plain (Start []); Calling 0 1 [CallStop]; Plain (Advance 100)]
             ++ [Plain (Stop 0)]) init)).
Proof.
  destruct (idle_once_stopped_and_settled fn_log 100
              [Plain (Start []); Calling 0 1 [CallStop]; Plain (Advance 100)]
              0)
    as (_ & _ & H).
  - simpl. split; [intros _; split; reflexivity|].
    split; [reflexivity|].
    split; [intros H; discriminate H | exact I].
  - vm_compute; lia.
  - exact (proj1 (H 1 {| a_pid := 1;
                         a_task := {| sid := 0; handlers := h_log |} |}
                    (Rejected 9) [] eq_refl)).
Defined.

Lemma no_failure_of_its_own_witness :
  Forall (fun e => is_unhandled e = false)
    (trace (run fn_log 100
              [Start []; Settle 0 (Fulfilled 1); Advance 100; Stop 0;
               Settle 1 (Fulfilled 2)] init)).
Proof.
  apply (no_failure_of_its_own fn_log 100).
  - intros params h r H. injection H as <-. reflexivity.
  - reflexivity.
Defined.

Lemma listeners_know_current_block_witness :
  exists vs,
    calls_to 2
      (calls (watch_run
                [Add 1; Update (Some String.EmptyString); Add 2; Remove 1;
                 Update None] watch0))
    = vs ++ [None].
Proof.
  apply (listeners_know_current_block
           [Add 1; Update (Some String.EmptyString); Add 2; Remove 1;
            Update None] 2).
  reflexivity.
Defined.

Lemma unsubscribed_listener_is_not_called_witness :
  has 1 (blockNumberListeners
           (watch_run [Update (Some String.EmptyString); Add 2; Update None]
              (removeBlockNumberListener 1 (watch_run [Add 1] watch0))))
  = false /\
  calls_to 1
    (calls (watch_run [Update (Some String.EmptyString); Add 2; Update None]
              (removeBlockNumberListener 1 (watch_run [Add 1] watch0))))
  = [None].
Proof.
  apply (unsubscribed_listener_is_not_called 1
           [Update (Some String.EmptyString); Add 2; Update None]
           (watch_run [Add 1] watch0)).
  reflexivity.
Defined.

Import String.StringSyntax.
Local Open Scope string_scope.

Lemma watcher_follows_results_witness :
  let conv := fun n : Z =>
                if (n =? 7)%Z then Normal (Err := unit) "7"
                else Throw tt in
  let w := watch_run [Add 1] watch0 in
  snd (effect_run conv 1000
         (effect_iterations 1000 0 [(5%Z, Some 7%Z); (5%Z, None)])
         (mounted conv 1000, w))
  = watch_run [Update (Some "7"); Update None] w.
Proof.
  intros conv w.
  refine (proj1 (proj2 (watcher_follows_results conv 1000
                          [(5%Z, Some 7%Z); (5%Z, None)]
                          [Some "7"; None] w _))).
  repeat constructor.
Defined.
